(** * The RUN-instruction analyzer of docker-openshift-analyzer

    A shallow embedding of [pkg/command/run.go]: the splitting of a RUN
    instruction on [&&], the three rules (chmod, chown, sudo/su) and the
    coordinator [Analyze], together with the part of Go's [strings] and
    [regexp] packages the file relies on.

    Go strings are byte sequences; they are modelled as [string], one
    [ascii] per byte. *)

From Stdlib Require Import Strings.String Strings.Ascii.
From Stdlib Require Import Lists.List Arith.Arith Arith.PeanoNat Bool.Bool.
From Stdlib Require Import micromega.Lia.
Import ListNotations.

Set Implicit Arguments.
Unset Strict Implicit.

Local Open Scope string_scope.
Local Open Scope nat_scope.

(** ** Byte strings *)

Module GoString.

(** [s[:n]] for [n <= len(s)]. *)
Fixpoint take (n : nat) (s : string) : string :=
  match n, s with
  | S n', String c s' => String c (take n' s')
  | _, _ => EmptyString
  end.

(** [s[n:]] for [n <= len(s)]. *)
Fixpoint drop (n : nat) (s : string) : string :=
  match n, s with
  | S n', String _ s' => drop n' s'
  | _, _ => s
  end.

(** [s[i:j]]. *)
Definition slice (i j : nat) (s : string) : string := take (j - i) (drop i s).

(** [strings.HasPrefix s p]. *)
Fixpoint HasPrefix (s p : string) {struct p} : bool :=
  match p, s with
  | EmptyString, _ => true
  | String a p', String b s' => Ascii.eqb a b && HasPrefix s' p'
  | String _ _, EmptyString => false
  end.

(** [strings.Index s sep]: the offset of the first occurrence of [sep]
    in [s]; [None] stands for Go's [-1]. *)
Fixpoint Index (s sep : string) : option nat :=
  if HasPrefix s sep then Some 0
  else match s with
       | EmptyString => None
       | String _ s' => option_map S (Index s' sep)
       end.

(** [strings.Contains s sub] is [Index(s, sub) >= 0]. *)
Definition Contains (s sub : string) : bool :=
  match Index s sub with Some _ => true | None => false end.

(** ASCII lower-casing of one byte. *)
Definition lowerByte (c : ascii) : ascii :=
  let n := nat_of_ascii c in
  if (65 <=? n) && (n <=? 90) then ascii_of_nat (n + 32) else c.

(** [strings.ToLower] on strings made of ASCII bytes, the only ones the
    chown pattern can capture (see [chown_group_ascii]). *)
Fixpoint ToLower (s : string) : string :=
  match s with
  | EmptyString => EmptyString
  | String c s' => String (lowerByte c) (ToLower s')
  end.

(** [strings.Count s substr] for a non-empty [substr]: the number of
    non-overlapping instances, found from left to right; the loop ends
    within [len(s)] rounds, each one dropping at least one byte. *)
Fixpoint countLoop (fuel : nat) (s substr : string) : nat :=
  match fuel with
  | O => 0
  | S fuel' =>
      match Index s substr with
      | None => 0
      | Some i => S (countLoop fuel' (drop (i + String.length substr) s) substr)
      end
  end.

Definition Count (s substr : string) : nat :=
  countLoop (String.length s) s substr.

(** The loop of [genSplit] for a non-empty [sep] and [sepSave = 0]: at
    most [n] pieces are cut off, the rest of [s] is the last piece. *)
Fixpoint genSplit (n : nat) (s sep : string) : list string :=
  match n with
  | O => [s]
  | S n' =>
      match Index s sep with
      | None => [s]
      | Some m => take m s :: genSplit n' (drop (m + String.length sep) s) sep
      end
  end.

(** [strings.Split s sep] for a non-empty [sep]: [genSplit(s, sep, 0, -1)],
    which sets [n] to [Count(s, sep) + 1] and runs the loop while
    [i < n - 1]. *)
Definition Split (s sep : string) : list string :=
  genSplit (Count s sep) s sep.

(** [strings.Join]. *)
Fixpoint Join (l : list string) (sep : string) : string :=
  match l with
  | [] => EmptyString
  | [x] => x
  | x :: l' => x ++ sep ++ Join l' sep
  end.

End GoString.
Import GoString.

(** ** Regular expressions

    The three patterns of [run.go] use literals, the Perl classes [\s],
    [\d], [\w], the dot, [^], concatenation, alternation, the greedy
    [*] and [+] and capturing groups.  Go's [regexp] returns, for
    [FindStringSubmatch], the leftmost match and, among the matches
    starting there, the one a backtracking search finds first; [run]
    below is that backtracking search, written with a continuation for
    what follows the current sub-expression. *)

Module Regexp.

Inductive regex : Type :=
| Eps
| Lit (c : ascii)
| Class (p : ascii -> bool)
| Bol
| Seq (r1 r2 : regex)
| Alt (r1 r2 : regex)
| Star (r : regex)
| Group (n : nat) (r : regex).

(** [r+] is [rr*]. *)
Definition Plus (r : regex) : regex := Seq r (Star r).

(** A literal string. *)
Fixpoint Str (s : string) : regex :=
  match s with
  | EmptyString => Eps
  | String c EmptyString => Lit c
  | String c s' => Seq (Lit c) (Str s')
  end.

(** [\s] is [[\t\n\f\r ]]. *)
Definition isSpace (c : ascii) : bool :=
  let n := nat_of_ascii c in
  (n =? 9) || (n =? 10) || (n =? 12) || (n =? 13) || (n =? 32).

(** [\d] is [[0-9]]. *)
Definition isDigit (c : ascii) : bool :=
  let n := nat_of_ascii c in (48 <=? n) && (n <=? 57).

(** [\w] is [[0-9A-Za-z_]]. *)
Definition isWord (c : ascii) : bool :=
  let n := nat_of_ascii c in
  ((48 <=? n) && (n <=? 57)) || ((65 <=? n) && (n <=? 90))
  || ((97 <=? n) && (n <=? 122)) || (n =? 95).

(** [.] is every character but the line feed.  A character of several
    bytes holds no line-feed byte, so on bytes the dot is every byte
    but 10. *)
Definition isDot (c : ascii) : bool := negb (nat_of_ascii c =? 10).

(** The text of each capturing group, when it took part in the match. *)
Definition caps : Type := nat -> option string.

Definition noCaps : caps := fun _ => None.

Definition setCap (n : nat) (txt : string) (cs : caps) : caps :=
  fun m => if m =? n then Some txt else cs m.

(** A continuation receives the offset reached, the input left and the
    captures so far, and answers with the end of the whole match. *)
Definition cont : Type := nat -> string -> caps -> option (nat * caps).

(** The loop of a greedy star: as long as the body matches and takes
    at least one byte, one more round is tried first; when the rounds
    are used up, what follows the star is tried.  The input gets
    shorter with every round, so [len(inp)] rounds are enough. *)
Definition starLoop (body : nat -> string -> caps -> cont -> option (nat * caps))
  (k : cont) : nat -> nat -> string -> caps -> option (nat * caps) :=
  fix loop (fuel : nat) (pos : nat) (inp : string) (cs : caps) {struct fuel} :=
    match fuel with
    | O => k pos inp cs
    | S fuel' =>
        match body pos inp cs
                (fun pos' inp' cs' =>
                   if String.length inp' <? String.length inp
                   then loop fuel' pos' inp' cs'
                   else None) with
        | Some res => Some res
        | None => k pos inp cs
        end
    end.

Fixpoint run (r : regex) (pos : nat) (inp : string) (cs : caps) (k : cont)
  {struct r} : option (nat * caps) :=
  match r with
  | Eps => k pos inp cs
  | Lit c =>
      match inp with
      | String a rest => if Ascii.eqb a c then k (S pos) rest cs else None
      | EmptyString => None
      end
  | Class p =>
      match inp with
      | String a rest => if p a then k (S pos) rest cs else None
      | EmptyString => None
      end
  | Bol => if pos =? 0 then k pos inp cs else None
  | Seq r1 r2 =>
      run r1 pos inp cs (fun pos' inp' cs' => run r2 pos' inp' cs' k)
  | Alt r1 r2 =>
      match run r1 pos inp cs k with
      | Some res => Some res
      | None => run r2 pos inp cs k
      end
  | Star r1 => starLoop (run r1) k (String.length inp) pos inp cs
  | Group n r1 =>
      run r1 pos inp cs
        (fun pos' inp' cs' =>
           k pos' inp' (setCap n (take (String.length inp - String.length inp') inp) cs'))
  end.

(** A body treats alike two continuations that answer alike. *)
Definition respects_ext
  (body : nat -> string -> caps -> cont -> option (nat * caps)) : Prop :=
  forall pos inp cs (k1 k2 : cont),
    (forall pos' inp' cs', k1 pos' inp' cs' = k2 pos' inp' cs') ->
    body pos inp cs k1 = body pos inp cs k2.

(** A match of the whole of [r] starting at offset [pos]. *)
Definition matchAt (r : regex) (pos : nat) (inp : string) : option (nat * caps) :=
  run r pos inp noCaps (fun pos' _ cs => Some (pos', cs)).

(** The leftmost match: the start offsets are tried from left to right.
    The answer holds the text from the start of the match on, its
    length and the captures. *)
Fixpoint search (r : regex) (pos : nat) (inp : string) {struct inp}
  : option (nat * string * nat * caps) :=
  match matchAt r pos inp with
  | Some (e, cs) => Some (pos, inp, e - pos, cs)
  | None =>
      match inp with
      | EmptyString => None
      | String _ rest => search r (S pos) rest
      end
  end.

(** What a pattern matches, apart from the order in which the search
    tries things: [Matches r pos a cs cs'] when [r] matches the text
    [a] found at offset [pos], turning the captures [cs] into [cs']. *)
Inductive Matches : regex -> nat -> string -> caps -> caps -> Prop :=
| MEps pos cs : Matches Eps pos "" cs cs
| MLit c pos cs : Matches (Lit c) pos (String c "") cs cs
| MClass (p : ascii -> bool) a pos cs :
    p a = true -> Matches (Class p) pos (String a "") cs cs
| MBol cs : Matches Bol 0 "" cs cs
| MSeq r1 r2 pos a b cs cs1 cs2 :
    Matches r1 pos a cs cs1 ->
    Matches r2 (pos + String.length a) b cs1 cs2 ->
    Matches (Seq r1 r2) pos (a ++ b) cs cs2
| MAltL r1 r2 pos a cs cs1 :
    Matches r1 pos a cs cs1 -> Matches (Alt r1 r2) pos a cs cs1
| MAltR r1 r2 pos a cs cs1 :
    Matches r2 pos a cs cs1 -> Matches (Alt r1 r2) pos a cs cs1
| MStarNil r pos cs : Matches (Star r) pos "" cs cs
| MStarCons r pos a b cs cs1 cs2 :
    Matches r pos a cs cs1 -> a <> "" ->
    Matches (Star r) (pos + String.length a) b cs1 cs2 ->
    Matches (Star r) pos (a ++ b) cs cs2
| MGroup n r pos a cs cs1 :
    Matches r pos a cs cs1 ->
    Matches (Group n r) pos a cs (setCap n a cs1).

(** Every byte of [s] is in the class [p]. *)
Fixpoint allIn (p : ascii -> bool) (s : string) : bool :=
  match s with
  | EmptyString => true
  | String c s' => p c && allIn p s'
  end.

(** [s] is not empty and every byte of it is in the class [p]. *)
Definition someIn (p : ascii -> bool) (s : string) : bool :=
  match s with
  | EmptyString => false
  | String _ _ => allIn p s
  end.

(** The longest prefix of [s] made of bytes of the class [p]. *)
Fixpoint span (p : ascii -> bool) (s : string) : string :=
  match s with
  | String c s' => if p c then String c (span p s') else EmptyString
  | EmptyString => EmptyString
  end.

(** [NumSubexp]: the number of capturing groups. *)
Fixpoint NumSubexp (r : regex) : nat :=
  match r with
  | Eps | Lit _ | Class _ | Bol => 0
  | Seq r1 r2 | Alt r1 r2 => NumSubexp r1 + NumSubexp r2
  | Star r1 => NumSubexp r1
  | Group _ r1 => S (NumSubexp r1)
  end.

Definition capText (cs : caps) (i : nat) : string :=
  match cs i with Some t => t | None => EmptyString end.

(** [re.FindStringSubmatch(s)]: nil ([[]]) when nothing matches, else the
    text of the match followed by the text of each group, the empty
    string for a group that took no part. *)
Definition FindStringSubmatch (r : regex) (s : string) : list string :=
  match search r 0 s with
  | None => []
  | Some (_, inp, len, cs) =>
      take len inp :: map (capText cs) (seq 1 (NumSubexp r))
  end.

(** [re.FindAllStringSubmatch(s, -1)], for patterns that match no empty
    text: the successive matches, each sought after the end of the one
    before. *)
Fixpoint FindAllFrom (fuel : nat) (r : regex) (pos : nat) (s : string)
  : list (list string) :=
  match fuel with
  | O => []
  | S fuel' =>
      match search r pos s with
      | None => []
      | Some (st, inp, len, cs) =>
          (take len inp :: map (capText cs) (seq 1 (NumSubexp r)))
            :: FindAllFrom fuel' r (st + len) (drop len inp)
      end
  end.

Definition FindAllStringSubmatch (r : regex) (s : string) : list (list string) :=
  FindAllFrom (S (String.length s)) r 0 s.

End Regexp.
Import Regexp.

(** ** The patterns of [run.go] *)

(** The pattern of [analyzeSudoAndSuCommand], [(\s+|^)(sudo|su)\s+]. *)
Definition re_sudo : regex :=
  Seq (Group 1 (Alt (Plus (Class isSpace)) Bol))
      (Seq (Group 2 (Alt (Str "sudo") (Str "su"))) (Plus (Class isSpace))).

(** The owners of the chown pattern, its part before the colon. *)
Definition chownOwner : regex :=
  Star (Group 1 (Seq (Star (Lit "$")) (Plus (Class isWord)))).

(** The pattern of [analyzeChownCommand]: group 1, [\$*\w+], starred; a
    colon; group 2, [\$*\w+]. *)
Definition re_chown : regex :=
  Seq chownOwner
      (Seq (Lit ":") (Group 2 (Seq (Star (Lit "$")) (Plus (Class isWord))))).

(** The pattern of [analyzeChmodCommand]: [chmod\s+(\d+)\s+] and group 2,
    the starred dot. *)
Definition re_chmod : regex :=
  Seq (Str "chmod")
      (Seq (Plus (Class isSpace))
           (Seq (Group 1 (Plus (Class isDigit)))
                (Seq (Plus (Class isSpace)) (Group 2 (Star (Class isDot)))))).

(** ** The data model *)

(** Modelled from the spec: the type of the [Status] field is declared
    in another file of the package; the spec gives a finding the status
    pass or fail. *)
Inductive StatusKind : Type := StatusPassed | StatusFailed.

(** Modelled from the spec: the type of the [Severity] field is declared
    in another file of the package; the spec gives a finding the
    severity low, medium, high or critical. *)
Inductive SeverityLevel : Type :=
  SeverityLow | SeverityMedium | SeverityHigh | SeverityCritical.

(** Modelled from the spec: [Result] is declared in another file of the
    package; [run.go] fills the four fields below. *)
Record Result : Type := mkResult {
  Name : string;
  Status : StatusKind;
  Severity : SeverityLevel;
  Description : string
}.

(** The field of [parser.Node] that [Analyze] reads. *)
Record Node : Type := mkNode { Value : string }.

(** [context.Context], as far as [Analyze] and [PostProcess] use it:
    [WithRunResult parent results] is
    [context.WithValue(parent, runResultKey, results)]; values stored by
    others are under keys of other types, [runResultKeyType] being
    private to the package. *)
Inductive Context : Type :=
| Background
| WithOther (parent : Context) (key : nat) (val : string)
| WithRunResult (parent : Context) (results : list Result).

(** [ctx.Value(runResultKey)]: the innermost value stored under the key. *)
Fixpoint ValueRunResult (ctx : Context) : option (list Result) :=
  match ctx with
  | Background => None
  | WithOther parent _ _ => ValueRunResult parent
  | WithRunResult _ results => Some results
  end.

Definition nl : string := String (ascii_of_nat 10) EmptyString.
Definition tab : string := String (ascii_of_nat 9) EmptyString.

Module Classifier.

(** The sub-command after its leading whitespace. *)
Fixpoint skipSpace (s : string) : string :=
  match s with
  | String c s' => if isSpace c then skipSpace s' else s
  | EmptyString => EmptyString
  end.

(** The bytes of a text up to its first whitespace. *)
Fixpoint leadingWord (s : string) : string :=
  match s with
  | String c s' => if isSpace c then EmptyString else String c (leadingWord s')
  | EmptyString => EmptyString
  end.

(** What follows the leading word of a text. *)
Definition afterWord (s : string) : string :=
  drop (String.length (leadingWord s)) s.

(** Modelled from the spec: [IsCommand] is declared in another file of
    the package.  The spec has the leading command name of the
    sub-command, after its leading whitespace is skipped, equal the
    keyword as a whole word, case-sensitively, and has the classification
    use the same whole-word match as the pattern of the sudo/su rule, in
    which whitespace follows the keyword. *)
Definition IsCommand (s command : string) : bool :=
  let text := skipSpace s in
  String.eqb (leadingWord text) command
  && match afterWord text with
     | String c _ => isSpace c
     | EmptyString => false
     end.

End Classifier.

(** The findings a nil or non-nil [*Result] stands for. *)
Definition findingList (result : option Result) : list Result :=
  match result with
  | Some r => [r]
  | None => []
  end.

(** ** The rules and the coordinator *)

Section Run.

(** [utils.Source], [Line] and [GenerateErrorLocation] are declared
    outside [run.go]; the rules only pass the first two to the third and
    put its text into the description. *)
Variables Source Line : Type.
Variable GenerateErrorLocation : Source -> Line -> string.

(** [IsCommand] is declared outside [run.go] too; [Classifier.IsCommand]
    is what the spec says of it. *)
Variable IsCommand : string -> string -> bool.

Definition isSudoOrSuCommand (s : string) : bool :=
  IsCommand s "sudo" || IsCommand s "su".

Definition analyzeSudoAndSuCommand (s : string) (source : Source) (line : Line)
  : option Result :=
  let match_ := FindStringSubmatch re_sudo s in
  if 0 <? List.length match_ then
    Some {| Name := "Use of sudo/su command";
            Status := StatusFailed;
            Severity := SeverityMedium;
            Description :=
              "sudo/su command used in '" ++ s ++ "' "
              ++ GenerateErrorLocation source line
              ++ " could cause an unexpected behavior. " ++ nl
              ++ tab ++ tab
              ++ "In OpenShift, containers are run using arbitrarily assigned user ID and elevating privileges could lead "
              ++ nl ++ tab ++ tab ++ "to an unexpected behavior" |}
  else None.

Definition isChownCommand (s : string) : bool := IsCommand s "chown".

Definition analyzeChownCommand (s : string) (source : Source) (line : Line)
  : option Result :=
  let match_ := FindStringSubmatch re_chown s in
  if List.length match_ =? 0 then None
  else
    let group := nth (List.length match_ - 1) match_ EmptyString in
    if negb (String.eqb (ToLower group) "root") && negb (String.eqb group "0") then
      Some {| Name := "Owner set";
              Status := StatusFailed;
              Severity := SeverityMedium;
              Description :=
                "owner set on " ++ s ++ " "
                ++ GenerateErrorLocation source line
                ++ " could cause an unexpected behavior. " ++ nl
                ++ tab ++ tab ++ tab
                ++ "In OpenShift the group ID must always be set to the root group (0)" |}
    else None.

Definition isChmodCommand (s : string) : bool := IsCommand s "chmod".

Definition syntaxError (source : Source) (line : Line) : Result :=
  {| Name := "Syntax error";
     Status := StatusFailed;
     Severity := SeverityCritical;
     Description :=
       "unable to fetch args of chmod command "
       ++ GenerateErrorLocation source line ++ ". Is it correct?" |}.

(** The text of [proposal] for a three-byte [permission]. *)
Definition chmodProposal (permission : string) : string :=
  let groupPermission := slice 1 2 permission in
  let proposal :=
    "Is it an executable file? Try updating permissions to "
    ++ slice 0 1 permission ++ "7" ++ slice 2 3 permission in
  if negb (String.eqb groupPermission "6") then
    proposal ++ " otherwise set it to "
    ++ slice 0 1 permission ++ "6" ++ slice 2 3 permission
  else proposal.

Definition analyzeChmodCommand (s : string) (source : Source) (line : Line)
  : option Result :=
  let match_ := FindStringSubmatch re_chmod s in
  if List.length match_ =? 0 then None
  else if negb (List.length match_ =? 3) then Some (syntaxError source line)
  else
    let permission := nth 1 match_ EmptyString in
    if negb (String.length permission =? 3) then Some (syntaxError source line)
    else
      let groupPermission := slice 1 2 permission in
      if negb (String.eqb groupPermission "7") then
        let proposal := chmodProposal permission in
        Some {| Name := "Permission set";
                Status := StatusFailed;
                Severity := SeverityMedium;
                Description :=
                  "permission set on " ++ s ++ " "
                  ++ GenerateErrorLocation source line
                  ++ " could cause an unexpected behavior. " ++ proposal ++ nl
                  ++ "Explanation - in Openshift, directories and files need to be read/writable by the root group and "
                  ++ "files that must be executed should have group execute permissions" |}
      else None.

(** [append(results, *result)] when [result] is not nil. *)
Definition appendResult (results : list Result) (result : option Result)
  : list Result :=
  match result with
  | Some r => (results ++ [r])%list
  | None => results
  end.

(** The body of the loop of [Analyze] for one sub-command. *)
Definition analyzeStep (source : Source) (line : Line)
  (results : list Result) (command : string) : list Result :=
  if isChmodCommand command then
    appendResult results (analyzeChmodCommand command source line)
  else if isChownCommand command then
    appendResult results (analyzeChownCommand command source line)
  else if isSudoOrSuCommand command then
    appendResult results (analyzeSudoAndSuCommand command source line)
  else results.

(** What one sub-command adds to the results. *)
Definition analyzeCommand (source : Source) (line : Line) (command : string)
  : option Result :=
  if isChmodCommand command then analyzeChmodCommand command source line
  else if isChownCommand command then analyzeChownCommand command source line
  else if isSudoOrSuCommand command then analyzeSudoAndSuCommand command source line
  else None.

Definition Analyze (ctx : Context) (node : Node) (source : Source) (line : Line)
  : Context :=
  let splittedCommands := Split (Value node) "&&" in
  let results := fold_left (analyzeStep source line) splittedCommands [] in
  WithRunResult ctx results.

Definition PostProcess (ctx : Context) : list Result :=
  match ValueRunResult ctx with
  | None => []
  | Some result => result
  end.

End Run.

(** A stand-in for the location collaborator, to run the rules on sample
    inputs: the source is a file name, the line a number. *)
Module Sample.
Definition Source : Type := string.
Definition Line : Type := nat.
Definition GenerateErrorLocation (source : Source) (line : Line) : string :=
  "in " ++ source.
Definition analyze (v : string) : list Result :=
  PostProcess (Analyze GenerateErrorLocation Classifier.IsCommand
                 Background (mkNode v) "Dockerfile" 7).
End Sample.


(** ** What the rules read off a sub-command *)

(** The numeric argument the chmod rule extracts: [match[1]]. *)
Definition extractedPermission (s : string) : option string :=
  match FindStringSubmatch re_chmod s with
  | [] => None
  | match_ => Some (nth 1 match_ EmptyString)
  end.

(** The group the chown rule selects: [match[len(match)-1]]. *)
Definition selectedGroup (s : string) : option string :=
  match FindStringSubmatch re_chown s with
  | [] => None
  | match_ => Some (nth (List.length match_ - 1) match_ EmptyString)
  end.

(** The spec's reading of the selected group: the group half of the last
    of all the pairs the pattern finds in the command. *)
Definition lastPairGroup (s : string) : option string :=
  match rev (FindAllStringSubmatch re_chown s) with
  | [] => None
  | match_ :: _ => Some (nth 2 match_ EmptyString)
  end.

(** The group half of the first of all the pairs. *)
Definition firstPairGroup (s : string) : option string :=
  match FindAllStringSubmatch re_chown s with
  | [] => None
  | match_ :: _ => Some (nth 2 match_ EmptyString)
  end.

(** [s] holds [chmod], whitespace, digits and whitespace. *)
Definition hasChmodArgs (s : string) : Prop :=
  exists pre ws1 d ws2 post,
    s = pre ++ "chmod" ++ ws1 ++ d ++ ws2 ++ post
    /\ someIn isSpace ws1 = true /\ someIn isDigit d = true
    /\ someIn isSpace ws2 = true.

Definition isSigil (c : ascii) : bool := Ascii.eqb c "$".

(** [s] holds a colon followed by a group: dollar signs, if any, and a
    word. *)
Definition hasGroupPair (s : string) : Prop :=
  exists pre dollars word post,
    s = pre ++ ":" ++ dollars ++ word ++ post
    /\ allIn isSigil dollars = true /\ someIn isWord word = true.

(** [s] holds [sudo] or [su] after whitespace or at its very start, and
    followed by whitespace. *)
Definition invokesSudoOrSu (s : string) : Prop :=
  exists pre before kw after post,
    s = pre ++ before ++ kw ++ after ++ post
    /\ (someIn isSpace before = true \/ (before = "" /\ pre = ""))
    /\ (kw = "sudo" \/ kw = "su")
    /\ someIn isSpace after = true.



(** The group that starts a text: its dollar signs, if any, and the word
    after them, each as long as it can be; none when no word follows. *)
Definition groupAt (s : string) : option string :=
  let dollars := span isSigil s in
  let word := span isWord (drop (String.length dollars) s) in
  match word with
  | EmptyString => None
  | String _ _ => Some (dollars ++ word)
  end.

(** The group after the first colon of [s] that is followed by one. *)
Fixpoint firstGroup (s : string) : option string :=
  match s with
  | EmptyString => None
  | String c s' =>
      if Ascii.eqb c ":" then
        match groupAt s' with
        | Some group => Some group
        | None => firstGroup s'
        end
      else firstGroup s'
  end.

(** The group is the root group: [root] in any case, or [0]. *)
Definition isRootGroup (group : string) : bool :=
  String.eqb (ToLower group) "root" || String.eqb group "0".

(** ** Further readings of a value *)

(** The instances of [&&] in [s], counted on its bytes from the left,
    each one sought after the end of the one before. *)
Fixpoint countAmpAmp (s : string) : nat :=
  match s with
  | EmptyString => 0
  | String c s' =>
      match s' with
      | EmptyString => 0
      | String c' s'' =>
          if Ascii.eqb c "&" && Ascii.eqb c' "&" then S (countAmpAmp s'')
          else countAmpAmp s'
      end
  end.

(** The last byte of [s] is [c]. *)
Fixpoint endsWith (c : ascii) (s : string) : bool :=
  match s with
  | EmptyString => false
  | String x EmptyString => Ascii.eqb x c
  | String _ s' => endsWith c s'
  end.

(** The numeric argument of a text that starts with [chmod], whitespace,
    digits and whitespace: the digits. *)
Definition chmodArgAt (s : string) : option string :=
  if HasPrefix s "chmod" then
    let r := drop 5 s in
    let ws1 := span isSpace r in
    let r1 := drop (String.length ws1) r in
    let d := span isDigit r1 in
    let r2 := drop (String.length d) r1 in
    match ws1, d, r2 with
    | String _ _, String _ _, String c _ => if isSpace c then Some d else None
    | _, _, _ => None
    end
  else None.

(** The numeric argument of the first place of [s] that has one. *)
Fixpoint firstChmodArg (s : string) : option string :=
  match chmodArgAt s with
  | Some d => Some d
  | None =>
      match s with
      | EmptyString => None
      | String _ s' => firstChmodArg s'
      end
  end.

(** The titles of the findings of [run.go], each with its severity. *)
Definition findingKinds : list (string * SeverityLevel) :=
  [("Syntax error", SeverityCritical); ("Permission set", SeverityMedium);
   ("Owner set", SeverityMedium); ("Use of sudo/su command", SeverityMedium)].

(** What holds of a finding made for the sub-command [s] at the location
    [location]. *)
Definition wellFormed (location s : string) (r : Result) : Prop :=
  Status r = StatusFailed
  /\ In (Name r, Severity r) findingKinds
  /\ Contains (Description r) location = true
  /\ (Name r = "Syntax error" \/ Contains (Description r) s = true).

(** * Properties *)

(** ** Byte strings *)

Lemma append_nil_r (s : string) : s ++ "" = s.
Proof. induction s as [|c s IH]; simpl; [reflexivity | now rewrite IH]. Qed.

Lemma append_assoc (a b c : string) : (a ++ b) ++ c = a ++ (b ++ c).
Proof. induction a as [|x a IH]; simpl; [reflexivity | now rewrite IH]. Qed.

Lemma length_append (a b : string) :
  String.length (a ++ b) = String.length a + String.length b.
Proof. induction a as [|x a IH]; simpl; [reflexivity | now rewrite IH]. Qed.

Lemma take_drop (n : nat) (s : string) : take n s ++ drop n s = s.
Proof.
  revert s; induction n as [|n IH]; intros [|c s]; simpl; try reflexivity.
  now rewrite IH.
Qed.

Lemma length_take (n : nat) (s : string) :
  String.length (take n s) = Nat.min n (String.length s).
Proof.
  revert s; induction n as [|n IH]; intros [|c s]; simpl; try reflexivity.
  now rewrite IH.
Qed.

Lemma length_drop (n : nat) (s : string) :
  String.length (drop n s) = String.length s - n.
Proof.
  revert s; induction n as [|n IH]; intros [|c s]; simpl; try reflexivity.
  apply IH.
Qed.

Lemma take_append (a b : string) : take (String.length a) (a ++ b) = a.
Proof. induction a as [|x a IH]; simpl; [now destruct b | now rewrite IH]. Qed.

Lemma drop_append (a b : string) : drop (String.length a) (a ++ b) = b.
Proof. induction a as [|x a IH]; simpl; [reflexivity | exact IH]. Qed.

Lemma drop_drop (n m : nat) (s : string) : drop n (drop m s) = drop (m + n) s.
Proof.
  revert s; induction m as [|m IH]; intros s; simpl; [reflexivity|].
  destruct s as [|c s]; [now destruct n | apply IH].
Qed.

Lemma HasPrefix_iff (s p : string) :
  HasPrefix s p = true <-> exists t, s = p ++ t.
Proof.
  revert s; induction p as [|a p IH]; intros s; simpl.
  - split; [intros _; now exists s | reflexivity].
  - destruct s as [|b s].
    + split; [discriminate | intros [t Ht]; discriminate].
    + rewrite andb_true_iff, Ascii.eqb_eq, IH. split.
      * intros [-> [t ->]]. now exists t.
      * intros [t Ht]. injection Ht as -> ->. split; [reflexivity | now exists t].
Qed.

Lemma HasPrefix_drop (s p : string) :
  HasPrefix s p = true -> s = p ++ drop (String.length p) s.
Proof.
  intros H. apply HasPrefix_iff in H. destruct H as [t ->].
  now rewrite drop_append.
Qed.

Lemma HasPrefix_take (n : nat) (s p : string) :
  HasPrefix (take n s) p = true -> HasPrefix s p = true.
Proof.
  rewrite !HasPrefix_iff. intros [t Ht].
  exists (t ++ drop n s). now rewrite <- append_assoc, <- Ht, take_drop.
Qed.

(** [Index] finds an occurrence, and the first one. *)
Lemma Index_Some (s sep : string) (m : nat) :
  Index s sep = Some m ->
  s = take m s ++ sep ++ drop (m + String.length sep) s
  /\ m + String.length sep <= String.length s.
Proof.
  revert m; induction s as [|c s IH]; intros m; simpl.
  - destruct (HasPrefix "" sep) eqn:E; [|discriminate].
    intros [= <-]. destruct sep; [now split | discriminate].
  - destruct (HasPrefix (String c s) sep) eqn:E.
    + intros [= <-]. simpl. split.
      * now apply HasPrefix_drop.
      * apply HasPrefix_iff in E. destruct E as [t Ht].
        apply (f_equal String.length) in Ht. rewrite length_append in Ht.
        simpl in Ht. lia.
    + destruct (Index s sep) as [i|]; [|discriminate].
      intros [= <-]. destruct (IH i eq_refl) as [H1 H2]. simpl. split.
      * now rewrite <- H1.
      * lia.
Qed.

Lemma Index_None (s sep : string) :
  Index s sep = None <-> forall a b, s <> a ++ sep ++ b.
Proof.
  induction s as [|c s IH]; simpl.
  - destruct (HasPrefix "" sep) eqn:E.
    + split; [discriminate|]. intros H. exfalso.
      apply HasPrefix_iff in E. destruct E as [t Ht]. now apply (H "" t).
    + split; [|reflexivity]. intros _ a b Hab.
      assert (HasPrefix "" sep = true); [|congruence].
      apply HasPrefix_iff. destruct a; [now exists b | discriminate].
  - destruct (HasPrefix (String c s) sep) eqn:E.
    + split; [discriminate|]. intros H. exfalso.
      apply HasPrefix_iff in E. destruct E as [t Ht]. now apply (H "" t).
    + destruct (Index s sep) as [i|] eqn:Ei; simpl.
      * split; [discriminate|]. intros H. exfalso.
        destruct (Index_Some Ei) as [Hs _].
        apply (H (String c (take i s)) (drop (i + String.length sep) s)).
        simpl. now rewrite <- Hs.
      * split; [|reflexivity]. intros _ a b Hab.
        destruct a as [|x a].
        -- assert (HasPrefix (String c s) sep = true); [|congruence].
           apply HasPrefix_iff. now exists b.
        -- simpl in Hab. injection Hab as -> ->.
           destruct IH as [IH _]. now apply (IH eq_refl a b).
Qed.

Lemma Contains_iff (s sub : string) :
  Contains s sub = true <-> exists a b, s = a ++ sub ++ b.
Proof.
  unfold Contains. destruct (Index s sub) as [i|] eqn:E.
  - split; [intros _ | reflexivity].
    destruct (Index_Some E) as [H _]. eauto.
  - split; [discriminate|]. intros [a [b H]]. exfalso.
    revert H. now apply Index_None.
Qed.

Lemma Contains_append (a sub b : string) : Contains (a ++ sub ++ b) sub = true.
Proof. apply Contains_iff. now exists a, b. Qed.

Lemma Index_first (s sep : string) (m : nat) :
  sep <> "" -> Index s sep = Some m -> Index (take m s) sep = None.
Proof.
  intros Hsep. revert m; induction s as [|c s IH]; intros m; simpl.
  - destruct (HasPrefix "" sep) eqn:E; [|discriminate].
    destruct sep; [congruence | discriminate].
  - destruct (HasPrefix (String c s) sep) eqn:E.
    + intros [= <-]. simpl. destruct sep; [congruence | reflexivity].
    + destruct (Index s sep) as [i|] eqn:Ei; [|discriminate].
      intros [= <-]. simpl.
      destruct (HasPrefix (String c (take i s)) sep) eqn:E'.
      * apply (@HasPrefix_take (S i) (String c s)) in E'. congruence.
      * now rewrite (IH i eq_refl).
Qed.

(** ** The tokenizer: [strings.Split] *)

Section SplitFacts.

Variable sep : string.
Hypothesis sep_nonempty : sep <> "".

Lemma sep_length : 1 <= String.length sep.
Proof. destruct sep; [congruence | simpl; lia]. Qed.

Lemma Join_cons (x : string) (l : list string) :
  l <> [] -> Join (x :: l) sep = x ++ sep ++ Join l sep.
Proof. destruct l; [congruence | reflexivity]. Qed.

Lemma genSplit_nonempty (n : nat) (s : string) : genSplit n s sep <> [].
Proof. destruct n; simpl; [|destruct (Index s sep)]; discriminate. Qed.

Lemma genSplit_countLoop (fuel : nat) (s : string) :
  String.length s <= fuel ->
  let l := genSplit (countLoop fuel s sep) s sep in
  List.length l = S (countLoop fuel s sep)
  /\ Join l sep = s
  /\ Forall (fun piece => Contains piece sep = false) l.
Proof.
  pose proof sep_length as Hl.
  revert s; induction fuel as [|fuel IH]; intros s Hs; cbn [countLoop].
  - destruct s; [|simpl in Hs; lia]. repeat split.
    constructor; [|constructor]. unfold Contains.
    destruct sep; [congruence | reflexivity].
  - destruct (Index s sep) as [i|] eqn:E; cbn [genSplit].
    + rewrite E. destruct (Index_Some E) as [Hcut Hlen].
      destruct (IH (drop (i + String.length sep) s)) as [H1 [H2 H3]].
      { rewrite length_drop. lia. }
      repeat split.
      * cbn [List.length]. now rewrite H1.
      * rewrite Join_cons by apply genSplit_nonempty.
        rewrite H2. now rewrite <- Hcut.
      * constructor; [|exact H3]. unfold Contains.
        now rewrite (Index_first sep_nonempty E).
    + repeat split. constructor; [|constructor]. unfold Contains. now rewrite E.
Qed.

Lemma Count_Contains (s : string) :
  Contains s sep = true <-> 1 <= Count s sep.
Proof.
  pose proof sep_length as Hl.
  unfold Contains, Count. destruct (Index s sep) as [i|] eqn:E.
  - destruct (Index_Some E) as [_ Hlen].
    destruct (String.length s) as [|n] eqn:En; [lia|].
    simpl. rewrite E. split; [lia | reflexivity].
  - destruct (String.length s); simpl; [|rewrite E]; split; (discriminate || lia).
Qed.

End SplitFacts.

(** ** The backtracking search and what a pattern matches *)

Section Engine.

Lemma starLoop_ext body (k1 k2 : cont) :
  respects_ext body ->
  (forall pos' inp' cs', k1 pos' inp' cs' = k2 pos' inp' cs') ->
  forall fuel pos inp cs,
    starLoop body k1 fuel pos inp cs = starLoop body k2 fuel pos inp cs.
Proof.
  intros Hb Hk. induction fuel as [|fuel IH]; intros pos inp cs; simpl.
  - apply Hk.
  - rewrite Hk.
    rewrite (Hb pos inp cs _
               (fun pos' inp' cs' =>
                  if String.length inp' <? String.length inp
                  then starLoop body k2 fuel pos' inp' cs' else None)).
    + reflexivity.
    + intros pos' inp' cs'. destruct (_ <? _); [apply IH | reflexivity].
Qed.

Lemma run_ext (r : regex) : respects_ext (run r).
Proof.
  induction r as [| c | p | | r1 IH1 r2 IH2 | r1 IH1 r2 IH2 | r1 IH1 | n r1 IH1];
    intros pos inp cs k1 k2 Hk; simpl.
  - apply Hk.
  - destruct inp as [|a rest]; [reflexivity|]. destruct (Ascii.eqb a c); [apply Hk | reflexivity].
  - destruct inp as [|a rest]; [reflexivity|]. destruct (p a); [apply Hk | reflexivity].
  - destruct (pos =? 0); [apply Hk | reflexivity].
  - apply IH1. intros pos' inp' cs'. now apply IH2.
  - rewrite (IH1 pos inp cs k1 k2 Hk), (IH2 pos inp cs k1 k2 Hk). reflexivity.
  - now apply starLoop_ext.
  - apply IH1. intros pos' inp' cs'. apply Hk.
Qed.

(** A body that fails whatever follows it fails when nothing can follow. *)
Lemma run_no_cont (r : regex) pos inp cs (k : cont) :
  (forall pos' inp' cs', k pos' inp' cs' = None) ->
  run r pos inp cs k = None.
Proof.
  revert pos inp cs k.
  induction r as [| c | p | | r1 IH1 r2 IH2 | r1 IH1 r2 IH2 | r1 IH1 | n r1 IH1];
    intros pos inp cs k Hk; simpl.
  - apply Hk.
  - destruct inp as [|a rest]; [reflexivity|]. destruct (Ascii.eqb a c); [apply Hk | reflexivity].
  - destruct inp as [|a rest]; [reflexivity|]. destruct (p a); [apply Hk | reflexivity].
  - destruct (pos =? 0); [apply Hk | reflexivity].
  - apply IH1. intros pos' inp' cs'. now apply IH2.
  - now rewrite IH1, IH2.
  - generalize (String.length inp) as fuel. intros fuel.
    revert pos inp cs. induction fuel as [|fuel IHf]; intros pos inp cs; simpl.
    + apply Hk.
    + rewrite IH1; [apply Hk|].
      intros pos' inp' cs'. destruct (_ <? _); [apply IHf | reflexivity].
  - apply IH1. intros pos' inp' cs'. apply Hk.
Qed.

(** More rounds than the input has bytes change nothing. *)
Lemma starLoop_fuel (r : regex) (k : cont) :
  forall fuel1 fuel2 pos inp cs,
    String.length inp <= fuel1 -> String.length inp <= fuel2 ->
    starLoop (run r) k fuel1 pos inp cs = starLoop (run r) k fuel2 pos inp cs.
Proof.
  induction fuel1 as [|fuel1 IH]; intros fuel2 pos inp cs H1 H2.
  - destruct inp; [|simpl in H1; lia].
    destruct fuel2 as [|fuel2]; [reflexivity|]. simpl.
    rewrite run_no_cont; [reflexivity|]. intros pos' inp' cs'.
    now destruct (String.length inp').
  - destruct fuel2 as [|fuel2].
    + destruct inp; [|simpl in H2; lia]. simpl.
      rewrite run_no_cont; [reflexivity|]. intros pos' inp' cs'.
      now destruct (String.length inp').
    + simpl.
      rewrite (@run_ext r pos inp cs _
                 (fun pos' inp' cs' =>
                    if String.length inp' <? String.length inp
                    then starLoop (run r) k fuel2 pos' inp' cs' else None)).
      * reflexivity.
      * intros pos' inp' cs'. destruct (_ <? _) eqn:E; [|reflexivity].
        apply Nat.ltb_lt in E. apply IH; lia.
Qed.

(** Soundness: when the search succeeds, the pattern matches a prefix
    of the input and what follows succeeded on the rest. *)
Lemma run_sound (r : regex) :
  forall pos inp cs (k : cont) res,
    run r pos inp cs k = Some res ->
    exists a rest cs',
      inp = a ++ rest /\ Matches r pos a cs cs'
      /\ k (pos + String.length a) rest cs' = Some res.
Proof.
  induction r as [| c | p | | r1 IH1 r2 IH2 | r1 IH1 r2 IH2 | r1 IH1 | n r1 IH1];
    intros pos inp cs k res H; simpl in H.
  - exists "", inp, cs. rewrite Nat.add_0_r. repeat split; [constructor | exact H].
  - destruct inp as [|a rest]; [discriminate|].
    destruct (Ascii.eqb a c) eqn:E; [|discriminate]. apply Ascii.eqb_eq in E. subst a.
    exists (String c ""), rest, cs. simpl. rewrite Nat.add_1_r.
    repeat split; [constructor | exact H].
  - destruct inp as [|a rest]; [discriminate|].
    destruct (p a) eqn:E; [|discriminate].
    exists (String a ""), rest, cs. simpl. rewrite Nat.add_1_r.
    repeat split; [now constructor | exact H].
  - destruct (pos =? 0) eqn:E; [|discriminate]. apply Nat.eqb_eq in E. subst pos.
    exists "", inp, cs. repeat split; [constructor | exact H].
  - apply IH1 in H. destruct H as [a [rest [cs1 [-> [M1 H]]]]].
    apply IH2 in H. destruct H as [b [rest2 [cs2 [-> [M2 H]]]]].
    exists (a ++ b), rest2, cs2. rewrite append_assoc, length_append, Nat.add_assoc.
    repeat split; [econstructor; eassumption | exact H].
  - destruct (run r1 pos inp cs k) as [res1|] eqn:E1.
    + injection H as <-. apply IH1 in E1. destruct E1 as [a [rest [cs1 [-> [M1 H]]]]].
      exists a, rest, cs1. repeat split; [now apply MAltL | exact H].
    + apply IH2 in H. destruct H as [a [rest [cs1 [-> [M1 H]]]]].
      exists a, rest, cs1. repeat split; [now apply MAltR | exact H].
  - revert H. generalize (String.length inp) as fuel. intros fuel.
    revert pos inp cs. induction fuel as [|fuel IHf]; intros pos inp cs H; simpl in H.
    + exists "", inp, cs. rewrite Nat.add_0_r. repeat split; [constructor | exact H].
    + match type of H with
      | match ?b with _ => _ end = _ => destruct b as [res1|] eqn:E1
      end.
      * injection H as <-. apply IH1 in E1.
        destruct E1 as [a [rest [cs1 [-> [M1 H]]]]].
        destruct (String.length rest <? String.length (a ++ rest)) eqn:El; [|discriminate].
        apply Nat.ltb_lt in El. rewrite length_append in El.
        apply IHf in H. destruct H as [b [rest2 [cs2 [-> [M2 H]]]]].
        exists (a ++ b), rest2, cs2. rewrite append_assoc, length_append, Nat.add_assoc.
        repeat split; [|exact H].
        eapply MStarCons; [eassumption | | eassumption].
        intros ->. simpl in El. lia.
      * exists "", inp, cs. rewrite Nat.add_0_r. repeat split; [constructor | exact H].
  - apply IH1 in H. destruct H as [a [rest [cs1 [-> [M1 H]]]]].
    exists a, rest, (setCap n a cs1). repeat split; [now constructor|].
    rewrite length_append, Nat.add_sub, take_append in H. exact H.
Qed.

(** Completeness: when the pattern matches a prefix of the input and
    what follows succeeds on the rest whatever the captures, the
    search succeeds. *)
Lemma run_complete r pos a cs0 cs0' :
  Matches r pos a cs0 cs0' ->
  forall rest cs (k : cont),
    (forall cs', k (pos + String.length a) rest cs' <> None) ->
    run r pos (a ++ rest) cs k <> None.
Proof.
  induction 1 as [pos cs0 | c pos cs0 | p a pos cs0 Hp | cs0
                  | r1 r2 pos a b cs0 cs1 cs2 M1 IH1 M2 IH2
                  | r1 r2 pos a cs0 cs1 M1 IH1 | r1 r2 pos a cs0 cs1 M1 IH1
                  | r pos cs0
                  | r pos a b cs0 cs1 cs2 M1 IH1 Hne M2 IH2
                  | n r pos a cs0 cs1 M1 IH1];
    intros rest cs k Hk; simpl.
  - rewrite Nat.add_0_r in Hk. apply Hk.
  - rewrite Ascii.eqb_refl. simpl in Hk. rewrite Nat.add_1_r in Hk. apply Hk.
  - rewrite Hp. simpl in Hk. rewrite Nat.add_1_r in Hk. apply Hk.
  - apply Hk.
  - rewrite append_assoc. apply IH1. intros cs'. apply IH2. intros cs''.
    rewrite length_append, Nat.add_assoc in Hk. apply Hk.
  - specialize (IH1 rest cs k Hk).
    destruct (run r1 pos (a ++ rest) cs k); [discriminate | congruence].
  - destruct (run r1 pos (a ++ rest) cs k); [discriminate|]. now apply IH1.
  - rewrite Nat.add_0_r in Hk.
    destruct (String.length rest) as [|fuel]; simpl; [apply Hk|].
    match goal with
    | |- match ?b with _ => _ end <> _ => destruct b
    end; [discriminate | apply Hk].
  - rewrite append_assoc.
    destruct (String.length (a ++ b ++ rest)) as [|fuel] eqn:El.
    + destruct a; [congruence | discriminate].
    + simpl.
      match goal with
      | |- match ?b with _ => _ end <> _ => destruct b eqn:E
      end; [discriminate|]. exfalso. revert E. apply IH1. intros cs'.
      assert (Hlt : String.length (b ++ rest) < String.length (a ++ b ++ rest)).
      { rewrite (length_append a). destruct a; [congruence | simpl; lia]. }
      apply Nat.ltb_lt in Hlt. rewrite Hlt.
      rewrite (@starLoop_fuel r k fuel (String.length (b ++ rest))).
      * apply (IH2 rest cs' k). intros cs''.
        rewrite length_append, Nat.add_assoc in Hk. apply Hk.
      * apply Nat.ltb_lt in Hlt. lia.
      * lia.
  - apply IH1. intros cs'. apply Hk.
Qed.

Lemma starLoop_S body (k : cont) fuel pos inp cs :
  starLoop body k (S fuel) pos inp cs
  = match body pos inp cs
            (fun pos' inp' cs' =>
               if String.length inp' <? String.length inp
               then starLoop body k fuel pos' inp' cs'
               else None) with
    | Some res => Some res
    | None => k pos inp cs
    end.
Proof. reflexivity. Qed.

Lemma run_Class_cons p pos c inp cs (k : cont) :
  run (Class p) pos (String c inp) cs k = if p c then k (S pos) inp cs else None.
Proof. reflexivity. Qed.

(** The star of a class is greedy: when what follows succeeds after the
    longest run of bytes of the class, that is the answer. *)
Lemma starLoop_class_greedy (p : ascii -> bool) (k : cont) :
  forall inp fuel pos cs res,
    String.length inp <= fuel ->
    k (pos + String.length (span p inp)) (drop (String.length (span p inp)) inp) cs
    = Some res ->
    starLoop (run (Class p)) k fuel pos inp cs = Some res.
Proof.
  induction inp as [|c inp IH]; intros fuel pos cs res Hf Hk.
  - simpl in Hk. rewrite Nat.add_0_r in Hk.
    destruct fuel; simpl; exact Hk.
  - destruct fuel as [|fuel]; [simpl in Hf; lia|].
    rewrite starLoop_S, run_Class_cons. cbn [span] in Hk. destruct (p c) eqn:E.
    + assert (Hlt : (String.length inp <? String.length (String c inp)) = true).
      { apply Nat.ltb_lt. simpl. lia. }
      rewrite Hlt. rewrite (IH fuel (S pos) cs res); [reflexivity | simpl in Hf; lia |].
      simpl in Hk. now rewrite Nat.add_succ_r in Hk.
    + simpl in Hk. now rewrite Nat.add_0_r in Hk.
Qed.

End Engine.

Section Search.

Variable r : regex.

Lemma matchAt_Some pos inp e cs :
  matchAt r pos inp = Some (e, cs) ->
  exists a rest,
    inp = a ++ rest /\ Matches r pos a noCaps cs /\ e = pos + String.length a.
Proof.
  intros H. apply run_sound in H. destruct H as [a [rest [cs' [-> [M H]]]]].
  injection H as <- <-. now exists a, rest.
Qed.

Lemma matchAt_None pos inp :
  matchAt r pos inp = None <->
  forall a rest cs cs', inp = a ++ rest -> ~ Matches r pos a cs cs'.
Proof.
  split.
  - intros H a rest cs cs' -> M. revert H.
    apply (run_complete M). discriminate.
  - intros H. destruct (matchAt r pos inp) as [[e cs]|] eqn:E; [|reflexivity].
    apply matchAt_Some in E. destruct E as [a [rest [-> [M _]]]].
    exfalso. exact (H a rest _ _ eq_refl M).
Qed.

(** [search] answers with a match, and with the leftmost one. *)
Lemma search_Some inp : forall pos st inp' len cs,
  search r pos inp = Some (st, inp', len, cs) ->
  exists pre a post,
    inp = pre ++ a ++ post /\ st = pos + String.length pre
    /\ inp' = a ++ post /\ len = String.length a
    /\ Matches r st a noCaps cs
    /\ forall pre' a' post' cs1 cs2,
         inp = pre' ++ a' ++ post' ->
         Matches r (pos + String.length pre') a' cs1 cs2 ->
         String.length pre <= String.length pre'.
Proof.
  induction inp as [|c inp IH]; intros pos st inp' len cs; simpl.
  - destruct (matchAt r pos "") as [[e cs0]|] eqn:E; [|discriminate].
    intros [= <- <- <- <-]. apply matchAt_Some in E.
    destruct E as [a [rest [Hs [M ->]]]].
    exists "", a, rest. simpl. rewrite Nat.add_0_r.
    repeat split; try assumption; try lia.
  - destruct (matchAt r pos (String c inp)) as [[e cs0]|] eqn:E.
    + intros [= <- <- <- <-]. apply matchAt_Some in E.
      destruct E as [a [rest [Hs [M ->]]]].
      exists "", a, rest. simpl. rewrite Nat.add_0_r.
      repeat split; try assumption; try lia.
    + intros H. apply IH in H.
      destruct H as [pre [a [post [-> [-> [-> [-> [M Hleft]]]]]]]].
      exists (String c pre), a, post. simpl. rewrite Nat.add_succ_r.
      repeat split; try assumption.
      intros pre' a' post' cs1 cs2 Hs M'. destruct pre' as [|c' pre'].
      * exfalso. simpl in Hs, M'. rewrite Nat.add_0_r in M'.
        destruct (matchAt_None pos (String c (pre ++ a ++ post))) as [HN _].
        exact (HN E a' post' cs1 cs2 Hs M').
      * simpl in Hs. injection Hs as <- Hs. simpl.
        apply le_n_S. apply (Hleft pre' a' post' cs1 cs2 Hs).
        simpl in M'. now rewrite Nat.add_succ_r in M'.
Qed.

Lemma search_None inp : forall pos,
  search r pos inp = None <->
  forall pre a post cs cs',
    inp = pre ++ a ++ post -> ~ Matches r (pos + String.length pre) a cs cs'.
Proof.
  induction inp as [|c inp IH]; intros pos; simpl.
  - destruct (matchAt r pos "") as [[e cs0]|] eqn:E.
    + split; [discriminate|]. intros H. exfalso.
      apply matchAt_Some in E. destruct E as [a [rest [Hs [M _]]]].
      apply (H "" a rest noCaps cs0 Hs). simpl. now rewrite Nat.add_0_r.
    + split; [|reflexivity]. intros _ pre a post cs cs' Hs M.
      destruct pre; [|discriminate]. simpl in Hs, M. rewrite Nat.add_0_r in M.
      destruct (matchAt_None pos "") as [HN _]. exact (HN E a post cs cs' Hs M).
  - destruct (matchAt r pos (String c inp)) as [[e cs0]|] eqn:E.
    + split; [discriminate|]. intros H. exfalso.
      apply matchAt_Some in E. destruct E as [a [rest [Hs [M _]]]].
      apply (H "" a rest noCaps cs0 Hs). simpl. now rewrite Nat.add_0_r.
    + rewrite IH. split.
      * intros H pre a post cs cs' Hs M. destruct pre as [|c' pre].
        -- simpl in Hs, M. rewrite Nat.add_0_r in M.
           destruct (matchAt_None pos (String c inp)) as [HN _].
           exact (HN E a post cs cs' Hs M).
        -- simpl in Hs. injection Hs as <- Hs. simpl in M.
           rewrite Nat.add_succ_r in M. exact (H pre a post cs cs' Hs M).
      * intros H pre a post cs cs' Hs M.
        apply (H (String c pre) a post cs cs'); [simpl; now rewrite Hs|].
        simpl. now rewrite Nat.add_succ_r.
Qed.

(** [FindStringSubmatch] answers nil or one text more than the pattern
    has groups. *)
Lemma FindStringSubmatch_length (s : string) :
  FindStringSubmatch r s = []
  \/ List.length (FindStringSubmatch r s) = S (NumSubexp r).
Proof.
  unfold FindStringSubmatch. destruct (search r 0 s) as [[[[st inp] len] cs]|].
  - right. simpl. now rewrite length_map, length_seq.
  - now left.
Qed.

(** It answers nil exactly when the pattern matches nowhere in [s]. *)
Lemma FindStringSubmatch_nil (s : string) :
  FindStringSubmatch r s = [] <->
  forall pre a post cs cs',
    s = pre ++ a ++ post -> ~ Matches r (String.length pre) a cs cs'.
Proof.
  unfold FindStringSubmatch.
  destruct (search r 0 s) as [[[[st inp] len] cs]|] eqn:E.
  - split; [discriminate|]. intros H. exfalso.
    apply search_Some in E.
    destruct E as [pre [a [post [Hs [-> [_ [_ [M _]]]]]]]].
    exact (H pre a post _ _ Hs M).
  - split; [|reflexivity]. intros _.
    destruct (search_None s 0) as [HN _]. exact (HN E).
Qed.

(** Otherwise it answers with the leftmost text the pattern matches
    and the captures of that match. *)
Lemma FindStringSubmatch_cons (s : string) :
  FindStringSubmatch r s <> [] ->
  exists pre a post cs,
    s = pre ++ a ++ post
    /\ Matches r (String.length pre) a noCaps cs
    /\ FindStringSubmatch r s = a :: map (capText cs) (seq 1 (NumSubexp r))
    /\ forall pre' a' post' cs1 cs2,
         s = pre' ++ a' ++ post' ->
         Matches r (String.length pre') a' cs1 cs2 ->
         String.length pre <= String.length pre'.
Proof.
  unfold FindStringSubmatch.
  destruct (search r 0 s) as [[[[st inp] len] cs]|] eqn:E; [|congruence].
  intros _. apply search_Some in E.
  destruct E as [pre [a [post [Hs [-> [-> [-> [M Hleft]]]]]]]].
  exists pre, a, post, cs. rewrite take_append. repeat split; assumption.
Qed.

(** The answer of [search] is the answer of [matchAt] at the start it
    reports. *)
Lemma search_matchAt inp : forall pos st inp' len cs,
  search r pos inp = Some (st, inp', len, cs) ->
  exists pre e,
    inp = pre ++ inp' /\ st = pos + String.length pre
    /\ matchAt r st inp' = Some (e, cs) /\ len = e - st.
Proof.
  induction inp as [|c inp IH]; intros pos st inp' len cs; simpl.
  - destruct (matchAt r pos "") as [[e cs0]|] eqn:E; [|discriminate].
    intros [= <- <- <- <-]. exists "", e. rewrite Nat.add_0_r. now repeat split.
  - destruct (matchAt r pos (String c inp)) as [[e cs0]|] eqn:E.
    + intros [= <- <- <- <-]. exists "", e. rewrite Nat.add_0_r. now repeat split.
    + intros H. apply IH in H. destruct H as [pre [e [-> [-> [Hm ->]]]]].
      exists (String c pre), e. simpl. rewrite Nat.add_succ_r. now repeat split.
Qed.

End Search.

(** ** What the three patterns match *)

Section Patterns.

Lemma allIn_append p a b : allIn p (a ++ b) = allIn p a && allIn p b.
Proof. induction a as [|c a IH]; simpl; [reflexivity | now rewrite IH, andb_assoc]. Qed.

Lemma allIn_weaken (p q : ascii -> bool) a :
  (forall c, p c = true -> q c = true) ->
  allIn p a = true -> allIn q a = true.
Proof.
  intros Hpq. induction a as [|c a IH]; simpl; [reflexivity|].
  intros H. apply andb_true_iff in H. destruct H as [Hc Ha].
  now rewrite (Hpq c Hc), IH.
Qed.

Lemma someIn_allIn p a : someIn p a = true -> allIn p a = true /\ a <> "".
Proof. destruct a; simpl; [discriminate | intros H; split; [exact H | discriminate]]. Qed.

Lemma allIn_someIn p a : allIn p a = true -> a <> "" -> someIn p a = true.
Proof. destruct a; simpl; [congruence | trivial]. Qed.

Lemma Matches_Lit_inv c pos a cs cs' :
  Matches (Lit c) pos a cs cs' -> a = String c "" /\ cs' = cs.
Proof. inversion 1; now subst. Qed.

Lemma Matches_Class_inv p pos a cs cs' :
  Matches (Class p) pos a cs cs' ->
  exists c, a = String c "" /\ p c = true /\ cs' = cs.
Proof. inversion 1; subst; eauto. Qed.

Lemma Matches_Seq_inv r1 r2 pos a cs cs' :
  Matches (Seq r1 r2) pos a cs cs' ->
  exists a1 a2 cs1,
    a = a1 ++ a2 /\ Matches r1 pos a1 cs cs1
    /\ Matches r2 (pos + String.length a1) a2 cs1 cs'.
Proof. inversion 1; subst; eauto 7. Qed.

Lemma Matches_Group_inv n r pos a cs cs' :
  Matches (Group n r) pos a cs cs' ->
  exists cs1, Matches r pos a cs cs1 /\ cs' = setCap n a cs1.
Proof. inversion 1; subst; eauto. Qed.

Lemma Matches_StarClass_inv p pos a cs cs' :
  Matches (Star (Class p)) pos a cs cs' -> allIn p a = true /\ cs' = cs.
Proof.
  intros M. remember (Star (Class p)) as r eqn:Er.
  induction M; try discriminate; injection Er as ->.
  - now split.
  - apply Matches_Class_inv in M1. destruct M1 as [c [-> [Hc ->]]].
    destruct (IHM2 eq_refl) as [Hb ->]. simpl. now rewrite Hc, Hb.
Qed.

Lemma Matches_StarClass p pos a cs :
  allIn p a = true -> Matches (Star (Class p)) pos a cs cs.
Proof.
  revert pos; induction a as [|c a IH]; intros pos H; simpl in H.
  - constructor.
  - apply andb_true_iff in H. destruct H as [Hc Ha].
    change (String c a) with (String c "" ++ a).
    eapply MStarCons; [now constructor | discriminate | now apply IH].
Qed.

Lemma Matches_PlusClass_inv p pos a cs cs' :
  Matches (Plus (Class p)) pos a cs cs' -> someIn p a = true /\ cs' = cs.
Proof.
  intros M. apply Matches_Seq_inv in M.
  destruct M as [a1 [a2 [cs1 [-> [M1 M2]]]]].
  apply Matches_Class_inv in M1. destruct M1 as [c [-> [Hc ->]]].
  apply Matches_StarClass_inv in M2. destruct M2 as [Ha ->].
  simpl. now rewrite Hc, Ha.
Qed.

Lemma Matches_PlusClass p pos a cs :
  someIn p a = true -> Matches (Plus (Class p)) pos a cs cs.
Proof.
  destruct a as [|c a]; simpl; [discriminate|]. intros H.
  apply andb_true_iff in H. destruct H as [Hc Ha].
  change (String c a) with (String c "" ++ a).
  eapply MSeq; [now constructor | now apply Matches_StarClass].
Qed.

Lemma Matches_Str t : forall pos cs, Matches (Str t) pos t cs cs.
Proof.
  induction t as [|c t IH]; intros pos cs; [constructor|].
  destruct t as [|c' t]; [constructor|].
  change (String c (String c' t)) with (String c "" ++ String c' t).
  change (Str (String c "" ++ String c' t)) with (Seq (Lit c) (Str (String c' t))).
  eapply MSeq; [constructor | apply IH].
Qed.

Lemma Matches_Alt_inv r1 r2 pos a cs cs' :
  Matches (Alt r1 r2) pos a cs cs' ->
  Matches r1 pos a cs cs' \/ Matches r2 pos a cs cs'.
Proof. inversion 1; subst; auto. Qed.

Lemma Matches_Bol_inv pos a cs cs' :
  Matches Bol pos a cs cs' -> a = "" /\ pos = 0 /\ cs' = cs.
Proof. inversion 1; now subst. Qed.

Lemma Matches_StarLit_inv c pos a cs cs' :
  Matches (Star (Lit c)) pos a cs cs' ->
  allIn (fun x => Ascii.eqb x c) a = true /\ cs' = cs.
Proof.
  intros M. remember (Star (Lit c)) as r eqn:Er.
  induction M; try discriminate; injection Er as ->.
  - now split.
  - apply Matches_Lit_inv in M1. destruct M1 as [-> ->].
    destruct (IHM2 eq_refl) as [Hb ->]. simpl. now rewrite Ascii.eqb_refl, Hb.
Qed.

Lemma Matches_StarLit c pos a cs :
  allIn (fun x => Ascii.eqb x c) a = true -> Matches (Star (Lit c)) pos a cs cs.
Proof.
  revert pos; induction a as [|x a IH]; intros pos H; simpl in H.
  - constructor.
  - apply andb_true_iff in H. destruct H as [Hc Ha].
    apply Ascii.eqb_eq in Hc. subst x.
    change (String c a) with (String c "" ++ a).
    eapply MStarCons; [constructor | discriminate | now apply IH].
Qed.

End Patterns.

Ltac invert_matches :=
  repeat match goal with
         | H : Matches (Plus (Class _)) _ _ _ _ |- _ =>
             apply Matches_PlusClass_inv in H; destruct H as [? ->]
         | H : Matches (Star (Class _)) _ _ _ _ |- _ =>
             apply Matches_StarClass_inv in H; destruct H as [? ->]
         | H : Matches (Star (Lit _)) _ _ _ _ |- _ =>
             apply Matches_StarLit_inv in H; destruct H as [? ->]
         | H : Matches (Seq _ _) _ _ _ _ |- _ =>
             apply Matches_Seq_inv in H;
             destruct H as [? [? [? [-> [? H]]]]]
         | H : Matches (Lit _) _ _ _ _ |- _ =>
             apply Matches_Lit_inv in H; destruct H as [-> ->]
         | H : Matches (Group _ _) _ _ _ _ |- _ =>
             apply Matches_Group_inv in H; destruct H as [? [H ->]]
         | H : Matches Bol _ _ _ _ |- _ =>
             apply Matches_Bol_inv in H; destruct H as [-> [? ->]]
         end.

Section ChmodPattern.

(** The pattern of the chmod rule: [chmod], whitespace, digits (group
    1), whitespace, the rest of the line (group 2). *)
Lemma re_chmod_inv pos a cs0 cs :
  Matches re_chmod pos a cs0 cs ->
  exists ws1 d ws2 rest,
    a = "chmod" ++ ws1 ++ d ++ ws2 ++ rest
    /\ someIn isSpace ws1 = true /\ someIn isDigit d = true
    /\ someIn isSpace ws2 = true /\ allIn isDot rest = true
    /\ cs = setCap 2 rest (setCap 1 d cs0).
Proof.
  unfold re_chmod. simpl Str. intros M. invert_matches.
  simpl. eauto 12.
Qed.

Lemma re_chmod_intro pos ws1 d ws2 rest cs :
  someIn isSpace ws1 = true -> someIn isDigit d = true ->
  someIn isSpace ws2 = true -> allIn isDot rest = true ->
  Matches re_chmod pos ("chmod" ++ ws1 ++ d ++ ws2 ++ rest) cs
    (setCap 2 rest (setCap 1 d cs)).
Proof.
  intros H1 H2 H3 H4. unfold re_chmod.
  eapply MSeq; [apply Matches_Str|].
  eapply MSeq; [now apply Matches_PlusClass|].
  eapply MSeq; [constructor; now apply Matches_PlusClass|].
  eapply MSeq; [now apply Matches_PlusClass|].
  constructor. now apply Matches_StarClass.
Qed.

(** The chmod pattern matches nowhere in [s] exactly when [s] holds no
    [chmod] followed by whitespace, digits and whitespace. *)
Lemma chmod_no_match (s : string) :
  FindStringSubmatch re_chmod s = [] <->
  forall pre ws1 d ws2 post,
    someIn isSpace ws1 = true -> someIn isDigit d = true ->
    someIn isSpace ws2 = true ->
    s <> pre ++ "chmod" ++ ws1 ++ d ++ ws2 ++ post.
Proof.
  rewrite FindStringSubmatch_nil. split.
  - intros H pre ws1 d ws2 post H1 H2 H3 Hs.
    apply (H pre ("chmod" ++ ws1 ++ d ++ ws2 ++ "") post noCaps
             (setCap 2 "" (setCap 1 d noCaps))).
    + rewrite Hs. simpl. now rewrite !append_assoc.
    + now apply re_chmod_intro.
  - intros H pre a post cs cs' Hs M.
    apply re_chmod_inv in M.
    destruct M as [ws1 [d [ws2 [rest [-> [H1 [H2 [H3 _]]]]]]]].
    apply (H pre ws1 d ws2 (rest ++ post) H1 H2 H3).
    rewrite Hs. simpl. now rewrite !append_assoc.
Qed.

(** When it matches, the answer is the leftmost such text, its digits
    and the rest of its line. *)
Lemma chmod_match (s : string) :
  FindStringSubmatch re_chmod s <> [] ->
  exists pre ws1 d ws2 rest post,
    s = pre ++ "chmod" ++ ws1 ++ d ++ ws2 ++ rest ++ post
    /\ someIn isSpace ws1 = true /\ someIn isDigit d = true
    /\ someIn isSpace ws2 = true /\ allIn isDot rest = true
    /\ FindStringSubmatch re_chmod s
       = ["chmod" ++ ws1 ++ d ++ ws2 ++ rest; d; rest]
    /\ forall pre' ws1' d' ws2' post',
         s = pre' ++ "chmod" ++ ws1' ++ d' ++ ws2' ++ post' ->
         someIn isSpace ws1' = true -> someIn isDigit d' = true ->
         someIn isSpace ws2' = true ->
         String.length pre <= String.length pre'.
Proof.
  intros H. apply FindStringSubmatch_cons in H.
  destruct H as [pre [a [post [cs [Hs [M [Hm Hleft]]]]]]].
  apply re_chmod_inv in M.
  destruct M as [ws1 [d [ws2 [rest [-> [H1 [H2 [H3 [H4 ->]]]]]]]]].
  exists pre, ws1, d, ws2, rest, post. repeat split; try assumption.
  - rewrite Hs. simpl. now rewrite !append_assoc.
  - intros pre' ws1' d' ws2' post' Hs' H1' H2' H3'.
    apply (Hleft pre' ("chmod" ++ ws1' ++ d' ++ ws2' ++ "") post' noCaps
             (setCap 2 "" (setCap 1 d' noCaps))).
    + rewrite Hs'. simpl. now rewrite !append_assoc.
    + now apply re_chmod_intro.
Qed.

End ChmodPattern.

Section ChownPattern.

Lemma chownOwner_inv pos a cs cs' :
  Matches chownOwner pos a cs cs' ->
  allIn (fun c => isSigil c || isWord c) a = true.
Proof.
  unfold chownOwner. intros M.
  remember (Star (Group 1 (Seq (Star (Lit "$")) (Plus (Class isWord))))) as r eqn:Er.
  induction M; try discriminate; injection Er as ->; [reflexivity|].
  rewrite allIn_append, (IHM2 eq_refl), andb_true_r.
  clear IHM1 IHM2 M2. invert_matches. rewrite allIn_append.
  apply andb_true_iff. split.
  - match goal with
    | H : allIn _ ?x = true |- allIn _ ?x = true =>
        revert H; apply allIn_weaken
    end.
    intros c Hc. unfold isSigil. now rewrite Hc.
  - match goal with
    | H : someIn _ ?x = true |- allIn _ ?x = true =>
        apply someIn_allIn in H; destruct H as [H _];
        revert H; apply allIn_weaken
    end.
    intros c Hc. now rewrite Hc, orb_true_r.
Qed.

(** The pattern of the chown rule: owners (group 1, repeated), a colon,
    the group (group 2): dollar signs, if any, and a word. *)
Lemma re_chown_inv pos a cs0 cs :
  Matches re_chown pos a cs0 cs ->
  exists owners dollars word,
    a = owners ++ ":" ++ dollars ++ word
    /\ allIn (fun c => isSigil c || isWord c) owners = true
    /\ allIn isSigil dollars = true /\ someIn isWord word = true
    /\ capText cs 2 = dollars ++ word.
Proof.
  unfold re_chown. fold chownOwner. intros M. invert_matches.
  match goal with
  | H : Matches chownOwner _ _ _ _ |- _ => apply chownOwner_inv in H
  end.
  eauto 10.
Qed.

Lemma re_chown_intro pos dollars word cs :
  allIn isSigil dollars = true -> someIn isWord word = true ->
  Matches re_chown pos (":" ++ dollars ++ word) cs
    (setCap 2 (dollars ++ word) cs).
Proof.
  intros H1 H2. unfold re_chown.
  change (":" ++ dollars ++ word) with ("" ++ ":" ++ dollars ++ word).
  eapply MSeq; [apply MStarNil|].
  eapply MSeq; [constructor|]. constructor.
  eapply MSeq; [now apply Matches_StarLit | now apply Matches_PlusClass].
Qed.

(** The chown pattern matches nowhere in [s] exactly when no colon of
    [s] is followed by a group. *)
Lemma chown_no_match (s : string) :
  FindStringSubmatch re_chown s = [] <-> ~ hasGroupPair s.
Proof.
  rewrite FindStringSubmatch_nil. split.
  - intros H [pre [dollars [word [post [Hs [H1 H2]]]]]].
    apply (H pre (":" ++ dollars ++ word) post noCaps
             (setCap 2 (dollars ++ word) noCaps)).
    + rewrite Hs. simpl. now rewrite !append_assoc.
    + now apply re_chown_intro.
  - intros H pre a post cs cs' Hs M. apply H.
    apply re_chown_inv in M.
    destruct M as [owners [dollars [word [-> [_ [H1 [H2 _]]]]]]].
    exists (pre ++ owners), dollars, word, post. repeat split; try assumption.
    rewrite Hs. simpl. rewrite !append_assoc. simpl. now rewrite !append_assoc.
Qed.

(** When it matches, the answer is the leftmost such text, the last
    owner and the group. *)
Lemma chown_match (s : string) :
  FindStringSubmatch re_chown s <> [] ->
  exists pre owners dollars word post owner,
    s = pre ++ owners ++ ":" ++ dollars ++ word ++ post
    /\ allIn (fun c => isSigil c || isWord c) owners = true
    /\ allIn isSigil dollars = true /\ someIn isWord word = true
    /\ FindStringSubmatch re_chown s
       = [owners ++ ":" ++ dollars ++ word; owner; dollars ++ word]
    /\ forall pre' owners' dollars' word' post',
         s = pre' ++ owners' ++ ":" ++ dollars' ++ word' ++ post' ->
         Matches chownOwner (String.length pre') owners' noCaps noCaps ->
         allIn isSigil dollars' = true -> someIn isWord word' = true ->
         String.length pre <= String.length pre'.
Proof.
  intros H. apply FindStringSubmatch_cons in H.
  destruct H as [pre [a [post [cs [Hs [M [Hm Hleft]]]]]]].
  apply re_chown_inv in M.
  destruct M as [owners [dollars [word [-> [H1 [H2 [H3 H4]]]]]]].
  exists pre, owners, dollars, word, post, (capText cs 1).
  repeat split; try assumption.
  - rewrite Hs. simpl. rewrite !append_assoc. simpl. now rewrite !append_assoc.
  - rewrite Hm. simpl. now rewrite H4.
  - intros pre' owners' dollars' word' post' Hs' Mo Hd Hw.
    apply (Hleft pre' (owners' ++ ":" ++ dollars' ++ word') post' noCaps
             (setCap 2 (dollars' ++ word') noCaps)).
    + rewrite Hs'. simpl. rewrite !append_assoc. simpl. now rewrite !append_assoc.
    + unfold re_chown. fold chownOwner.
      eapply MSeq; [exact Mo|].
      eapply MSeq; [constructor|]. constructor.
      eapply MSeq; [now apply Matches_StarLit | now apply Matches_PlusClass].
Qed.

Lemma span_allIn p s : allIn p (span p s) = true.
Proof.
  induction s as [|c s IH]; simpl; [reflexivity|].
  destruct (p c) eqn:E; simpl; [now rewrite E, IH | reflexivity].
Qed.

Lemma span_drop p s : span p s ++ drop (String.length (span p s)) s = s.
Proof.
  induction s as [|c s IH]; simpl; [reflexivity|].
  destruct (p c); simpl; [now rewrite IH | reflexivity].
Qed.

Lemma span_stop p d t :
  allIn p d = true ->
  (forall c t', t = String c t' -> p c = false) ->
  span p (d ++ t) = d.
Proof.
  intros Hd Ht. induction d as [|x d IH]; simpl in *.
  - destruct t as [|c t']; [reflexivity|]. simpl. now rewrite (Ht c t' eq_refl).
  - apply andb_true_iff in Hd. destruct Hd as [Hx Hd]. now rewrite Hx, IH.
Qed.

Lemma span_cons_inv p s c w :
  span p s = String c w ->
  exists rest, s = String c rest /\ p c = true /\ w = span p rest.
Proof.
  destruct s as [|x s]; simpl; [discriminate|].
  destruct (p x) eqn:E; [|discriminate]. intros [= <- <-]. now exists s.
Qed.

Lemma word_not_sigil c : isWord c = true -> isSigil c = false.
Proof. destruct c as [[] [] [] [] [] [] [] []]; vm_compute; congruence. Qed.

(** A text that starts with dollar signs and a word starts with a group. *)
Lemma groupAt_intro dollars word rest :
  allIn isSigil dollars = true -> someIn isWord word = true ->
  exists group, groupAt (dollars ++ word ++ rest) = Some group.
Proof.
  intros Hd Hw. destruct word as [|c word]; [discriminate|].
  simpl in Hw. apply andb_true_iff in Hw. destruct Hw as [Hc _].
  unfold groupAt. rewrite span_stop; [|exact Hd|].
  - rewrite drop_append. simpl. rewrite Hc. eauto.
  - intros c' t' [= <- _]. now apply word_not_sigil.
Qed.

(** The group that starts a text is a prefix of it, made of dollar signs
    and a word. *)
Lemma groupAt_shape tail group :
  groupAt tail = Some group ->
  exists dollars word,
    group = dollars ++ word
    /\ allIn isSigil dollars = true /\ someIn isWord word = true
    /\ tail = group ++ drop (String.length group) tail.
Proof.
  unfold groupAt.
  destruct (span isWord (drop (String.length (span isSigil tail)) tail))
    as [|c w] eqn:E; [discriminate|].
  intros [= <-]. exists (span isSigil tail), (String c w). repeat split.
  - apply span_allIn.
  - rewrite <- E. apply allIn_someIn; [apply span_allIn | rewrite E; discriminate].
  - rewrite length_append, <- drop_drop, append_assoc, <- E.
    now rewrite !span_drop.
Qed.

Lemma run_Lit_cons c0 pos c inp cs (k : cont) :
  run (Lit c0) pos (String c inp) cs k
  = if Ascii.eqb c c0 then k (S pos) inp cs else None.
Proof. reflexivity. Qed.

(** The search through group 2 of the chown pattern, when nothing
    follows it in the pattern, takes the group that starts the text. *)
Lemma run_chown_group pos inp cs group :
  groupAt inp = Some group ->
  run (Group 2 (Seq (Star (Lit "$")) (Plus (Class isWord)))) pos inp cs
    (fun pos' _ cs' => Some (pos', cs'))
  = Some (pos + String.length group, setCap 2 group cs).
Proof.
  intros Hg.
  change (run (Group 2 (Seq (Star (Lit "$")) (Plus (Class isWord)))) pos inp cs
            (fun pos' _ cs' => Some (pos', cs')))
    with (starLoop (run (Class isSigil))
            (fun pos1 inp1 cs1 =>
               run (Class isWord) pos1 inp1 cs1
                 (fun pos2 inp2 cs2 =>
                    starLoop (run (Class isWord))
                      (fun pos' inp' cs' =>
                         Some (pos',
                               setCap 2
                                 (take (String.length inp - String.length inp') inp)
                                 cs'))
                      (String.length inp2) pos2 inp2 cs2))
            (String.length inp) pos inp cs).
  apply starLoop_class_greedy; [lia|].
  unfold groupAt in Hg.
  destruct (span isWord (drop (String.length (span isSigil inp)) inp))
    as [|c w] eqn:E; [discriminate|].
  injection Hg as <-.
  destruct (span_cons_inv E) as [rest [Hrest [Hc ->]]].
  rewrite Hrest, run_Class_cons, Hc.
  apply starLoop_class_greedy; [lia|].
  assert (Hinp : inp = (span isSigil inp ++ String c (span isWord rest))
                       ++ drop (String.length (span isWord rest)) rest).
  { rewrite append_assoc. simpl. rewrite span_drop, <- Hrest. now rewrite span_drop. }
  f_equal. f_equal.
  - rewrite length_append. simpl. lia.
  - f_equal. rewrite Hinp at 2.
    replace (String.length inp
             - String.length (drop (String.length (span isWord rest)) rest))
      with (String.length (span isSigil inp ++ String c (span isWord rest))).
    + apply take_append.
    + rewrite Hinp at 2. rewrite (length_append (_ ++ _)). lia.
Qed.

(** A match of the chown pattern at a given start: owners, the colon
    and the group that starts the text after it. *)
Lemma matchAt_chown pos inp e cs :
  matchAt re_chown pos inp = Some (e, cs) ->
  exists owners tail cs1 group,
    inp = owners ++ ":" ++ tail
    /\ Matches chownOwner pos owners noCaps cs1
    /\ groupAt tail = Some group
    /\ e = pos + String.length owners + 1 + String.length group
    /\ cs = setCap 2 group cs1.
Proof.
  unfold matchAt.
  change (run re_chown pos inp noCaps (fun pos' _ cs0 => Some (pos', cs0)))
    with (run chownOwner pos inp noCaps
            (fun pos1 inp1 cs1 =>
               run (Lit ":") pos1 inp1 cs1
                 (fun pos2 inp2 cs2 =>
                    run (Group 2 (Seq (Star (Lit "$")) (Plus (Class isWord))))
                      pos2 inp2 cs2 (fun pos' _ cs0 => Some (pos', cs0))))).
  intros H. apply run_sound in H. destruct H as [owners [rest [cs1 [-> [M H]]]]].
  destruct rest as [|c tail]; [discriminate|].
  rewrite run_Lit_cons in H. destruct (Ascii.eqb c ":") eqn:Ec; [|discriminate].
  apply Ascii.eqb_eq in Ec. subst c.
  assert (Hg : exists group, groupAt tail = Some group).
  { pose proof (run_sound H) as [a [rest [cs2 [-> [M2 _]]]]].
    invert_matches. rewrite append_assoc. now apply groupAt_intro. }
  destruct Hg as [group Hg]. rewrite (run_chown_group _ _ Hg) in H.
  injection H as <- <-. exists owners, tail, cs1, group.
  repeat split; try assumption. lia.
Qed.

Lemma app_eq_split a : forall b c d,
  a ++ b = c ++ d -> String.length a <= String.length c ->
  exists m, c = a ++ m /\ b = m ++ d.
Proof.
  induction a as [|x a IH]; intros b c d H Hl; simpl in *.
  - now exists c.
  - destruct c as [|y c]; [simpl in Hl; lia|].
    simpl in H. injection H as <- H. simpl in Hl.
    destruct (IH b c d H) as [m [-> ->]]; [lia|]. now exists m.
Qed.

End ChownPattern.

Section SudoPattern.

(** The pattern of the sudo/su rule: whitespace or the start of the
    text (group 1), [sudo] or [su] (group 2), whitespace. *)
Lemma re_sudo_inv pos a cs0 cs :
  Matches re_sudo pos a cs0 cs ->
  exists before kw after,
    a = before ++ kw ++ after
    /\ (someIn isSpace before = true \/ (before = "" /\ pos = 0))
    /\ (kw = "sudo" \/ kw = "su")
    /\ someIn isSpace after = true.
Proof.
  unfold re_sudo. simpl Str. intros M. invert_matches.
  match goal with
  | H : Matches (Alt (Plus _) Bol) _ _ _ _ |- _ =>
      apply Matches_Alt_inv in H; destruct H as [H|H]
  end;
  match goal with
  | H : Matches (Alt (Seq _ _) (Seq _ _)) _ _ _ _ |- _ =>
      apply Matches_Alt_inv in H; destruct H as [H|H]
  end; invert_matches; eauto 10.
Qed.

Lemma re_sudo_intro pos before kw after cs :
  someIn isSpace before = true \/ (before = "" /\ pos = 0) ->
  kw = "sudo" \/ kw = "su" ->
  someIn isSpace after = true ->
  exists cs', Matches re_sudo pos (before ++ kw ++ after) cs cs'.
Proof.
  intros Hb Hk Ha. unfold re_sudo. eexists.
  eapply MSeq; [constructor | eapply MSeq; [constructor | now apply Matches_PlusClass]].
  - destruct Hb as [Hb|[-> ->]].
    + apply MAltL. now apply Matches_PlusClass.
    + apply MAltR. constructor.
  - destruct Hk as [->| ->].
    + apply MAltL. apply Matches_Str.
    + apply MAltR. apply Matches_Str.
Qed.

(** The pattern matches somewhere in [s] exactly when [s] invokes
    [sudo] or [su]. *)
Lemma sudo_no_match (s : string) :
  FindStringSubmatch re_sudo s = [] <-> ~ invokesSudoOrSu s.
Proof.
  rewrite FindStringSubmatch_nil. split.
  - intros H [pre [before [kw [after [post [Hs [Hb [Hk Ha]]]]]]]].
    destruct (@re_sudo_intro (String.length pre) before kw after noCaps)
      as [cs' M]; try assumption.
    { destruct Hb as [Hb|[-> ->]]; [now left | now right]. }
    apply (H pre (before ++ kw ++ after) post noCaps cs'); [|exact M].
    rewrite Hs. now rewrite !append_assoc.
  - intros H pre a post cs cs' Hs M. apply H.
    apply re_sudo_inv in M.
    destruct M as [before [kw [after [-> [Hb [Hk Ha]]]]]].
    exists pre, before, kw, after, post. repeat split; try assumption.
    + rewrite Hs. now rewrite !append_assoc.
    + destruct Hb as [Hb|[-> Hp]]; [now left | right].
      split; [reflexivity|]. now destruct pre.
Qed.

End SudoPattern.

(** ** The chmod rule *)

Section ChmodRule.

Variables Source Line : Type.
Variable GenerateErrorLocation : Source -> Line -> string.

Lemma extractedPermission_None (s : string) :
  extractedPermission s = None <-> ~ hasChmodArgs s.
Proof.
  unfold extractedPermission.
  destruct (FindStringSubmatch re_chmod s) as [|whole l] eqn:E.
  - split; [intros _ | reflexivity].
    intros [pre [ws1 [d [ws2 [post [Hs [H1 [H2 H3]]]]]]]].
    destruct (chmod_no_match s) as [HN _].
    exact (HN E pre ws1 d ws2 post H1 H2 H3 Hs).
  - split; [discriminate|]. intros H. exfalso. apply H.
    destruct (@chmod_match s) as [pre [ws1 [d [ws2 [rest [post [Hs [H1 [H2 [H3 _]]]]]]]]]].
    { rewrite E. discriminate. }
    exists pre, ws1, d, ws2, (rest ++ post). repeat split; assumption.
Qed.

(** The extracted argument is a run of digits. *)
Lemma extractedPermission_digits (s permission : string) :
  extractedPermission s = Some permission -> someIn isDigit permission = true.
Proof.
  unfold extractedPermission.
  destruct (FindStringSubmatch re_chmod s) as [|whole l] eqn:E; [discriminate|].
  destruct (@chmod_match s) as [pre [ws1 [d [ws2 [rest [post [Hs [H1 [H2 [H3 [H4 [Hm _]]]]]]]]]]]].
  { rewrite E. discriminate. }
  rewrite E in Hm. rewrite Hm. now intros [= <-].
Qed.

(** The rule by cases on the extracted argument; the test
    [len(match) != 3] never fires. *)
Lemma analyzeChmodCommand_cases (s : string) (source : Source) (line : Line) :
  analyzeChmodCommand GenerateErrorLocation s source line =
  match extractedPermission s with
  | None => None
  | Some permission =>
      if String.length permission =? 3 then
        if String.eqb (slice 1 2 permission) "7" then None
        else Some {| Name := "Permission set";
                     Status := StatusFailed;
                     Severity := SeverityMedium;
                     Description :=
                       "permission set on " ++ s ++ " "
                       ++ GenerateErrorLocation source line
                       ++ " could cause an unexpected behavior. "
                       ++ chmodProposal permission ++ nl
                       ++ "Explanation - in Openshift, directories and files need to be read/writable by the root group and "
                       ++ "files that must be executed should have group execute permissions" |}
      else Some (syntaxError GenerateErrorLocation source line)
  end.
Proof.
  unfold analyzeChmodCommand, extractedPermission.
  destruct (FindStringSubmatch_length re_chmod s) as [H|H].
  - now rewrite H.
  - destruct (FindStringSubmatch re_chmod s) as [|whole l]; [discriminate|].
    rewrite H. change (S (NumSubexp re_chmod)) with 3. cbn [Nat.eqb negb].
    destruct (String.length (nth 1 (whole :: l) "") =? 3); cbn [negb];
      [|reflexivity].
    now destruct (String.eqb (slice 1 2 (nth 1 (whole :: l) "")) "7").
Qed.

(** C1, as the code has it.  When the sub-command holds no [chmod]
    followed by whitespace, digits and whitespace, the pattern does not
    match and the rule emits nothing; when the pattern matches and the
    digits of the leftmost match are not three, the rule emits the
    critical "Syntax error" finding. *)
Theorem chmod_syntax_error (s : string) (source : Source) (line : Line) :
  (~ hasChmodArgs s -> analyzeChmodCommand GenerateErrorLocation s source line = None)
  /\ (forall permission,
        extractedPermission s = Some permission ->
        String.length permission <> 3 ->
        exists r,
          analyzeChmodCommand GenerateErrorLocation s source line = Some r
          /\ Name r = "Syntax error" /\ Status r = StatusFailed
          /\ Severity r = SeverityCritical).
Proof.
  rewrite analyzeChmodCommand_cases. split.
  - intros H. apply extractedPermission_None in H. now rewrite H.
  - intros permission -> Hlen. apply Nat.eqb_neq in Hlen. rewrite Hlen.
    eexists. repeat split.
Qed.

(** C4.  When the extracted argument is three bytes, owner, group and
    other, the rule emits nothing for the group digit 7 and the medium
    "Permission set" finding for any other. *)
Theorem chmod_group_digit (s : string) (source : Source) (line : Line)
  (owner group other : ascii) :
  extractedPermission s = Some (String owner (String group (String other ""))) ->
  if Ascii.eqb group "7" then analyzeChmodCommand GenerateErrorLocation s source line = None
  else exists r,
      analyzeChmodCommand GenerateErrorLocation s source line = Some r
      /\ Name r = "Permission set" /\ Status r = StatusFailed
      /\ Severity r = SeverityMedium.
Proof.
  intros H. rewrite analyzeChmodCommand_cases, H. simpl.
  destruct (Ascii.eqb group "7"); [reflexivity|].
  eexists. repeat split.
Qed.

Lemma isDigit_cases (c : ascii) :
  isDigit c = true ->
  In c ["0"; "1"; "2"; "3"; "4"; "5"; "6"; "7"; "8"; "9"]%char.
Proof.
  destruct c as [[] [] [] [] [] [] [] []]; vm_compute; intros H;
    try discriminate; auto 12.
Qed.

(** With the group digit 6 the proposal holds no alternative. *)
Lemma chmodProposal_six (owner other : ascii) :
  isDigit owner = true -> isDigit other = true ->
  Contains (chmodProposal (String owner (String "6" (String other ""))))
    (" otherwise set it to " ++ String owner (String "6" (String other "")))
  = false.
Proof.
  intros Ho Ht. apply isDigit_cases in Ho. apply isDigit_cases in Ht.
  simpl in Ho, Ht.
  repeat (destruct Ho as [<-|Ho]; [|]); try contradiction;
    repeat (destruct Ht as [<-|Ht]; [|]); try contradiction;
    vm_compute; reflexivity.
Qed.

(** C5.  For a three-byte argument whose group digit is not 7, the
    description of the "Permission set" finding embeds the remediation
    text [proposal]; that text always holds the proposal of the same
    digits with 7 for the group, and holds the alternative with 6 for
    the group exactly when the group digit is not 6. *)
Theorem chmod_remediation_text (s : string) (source : Source) (line : Line)
  (owner group other : ascii) :
  extractedPermission s = Some (String owner (String group (String other ""))) ->
  Ascii.eqb group "7" = false ->
  let proposal := chmodProposal (String owner (String group (String other ""))) in
  exists r,
    analyzeChmodCommand GenerateErrorLocation s source line = Some r
    /\ Name r = "Permission set" /\ Status r = StatusFailed
    /\ Severity r = SeverityMedium
    /\ Description r
       = "permission set on " ++ s ++ " " ++ GenerateErrorLocation source line
         ++ " could cause an unexpected behavior. " ++ proposal ++ nl
         ++ "Explanation - in Openshift, directories and files need to be read/writable by the root group and files that must be executed should have group execute permissions"
    /\ Contains proposal
         ("Try updating permissions to " ++ String owner (String "7" (String other "")))
       = true
    /\ Contains proposal
         (" otherwise set it to " ++ String owner (String "6" (String other "")))
       = negb (Ascii.eqb group "6").
Proof.
  intros H H7 proposal. rewrite analyzeChmodCommand_cases, H.
  cbn [String.length Nat.eqb]. unfold slice at 1. cbn [Nat.sub drop take String.eqb].
  rewrite H7. eexists. split; [reflexivity|]. split; [reflexivity|].
  split; [reflexivity|]. split; [reflexivity|]. split; [reflexivity|].
  apply extractedPermission_digits in H. simpl in H.
  apply andb_true_iff in H. destruct H as [Ho H].
  apply andb_true_iff in H. destruct H as [_ H].
  apply andb_true_iff in H. destruct H as [Ht _].
  subst proposal. split.
  - unfold chmodProposal, slice. cbn [Nat.sub drop take String.eqb].
    apply Contains_iff. exists "Is it an executable file? ".
    destruct (Ascii.eqb group "6"); cbn [negb].
    + now exists "".
    + now exists (" otherwise set it to " ++ String owner (String "6" (String other ""))).
  - destruct (Ascii.eqb group "6") eqn:E6; cbn [negb].
    + apply Ascii.eqb_eq in E6. subst group. now apply chmodProposal_six.
    + unfold chmodProposal, slice. cbn [Nat.sub drop take String.eqb].
      rewrite E6. cbn [negb]. apply Contains_iff.
      exists ("Is it an executable file? Try updating permissions to "
              ++ String owner (String "7" (String other ""))), "".
      reflexivity.
Qed.

End ChmodRule.

(** ** The chown rule *)

Section ChownRule.

Variables Source Line : Type.
Variable GenerateErrorLocation : Source -> Line -> string.

Lemma selectedGroup_None (s : string) :
  selectedGroup s = None <-> ~ hasGroupPair s.
Proof.
  rewrite <- chown_no_match. unfold selectedGroup.
  destruct (FindStringSubmatch re_chown s); split; congruence.
Qed.

(** The selected group is the third text of the answer, and is made of
    dollar signs and word bytes. *)
Lemma selectedGroup_Some (s group : string) :
  selectedGroup s = Some group ->
  nth 2 (FindStringSubmatch re_chown s) "" = group
  /\ allIn (fun c => isSigil c || isWord c) group = true.
Proof.
  unfold selectedGroup.
  destruct (FindStringSubmatch re_chown s) as [|whole l] eqn:E; [discriminate|].
  destruct (@chown_match s)
    as [pre [owners [dollars [word [post [owner [_ [_ [H2 [H3 [Hm _]]]]]]]]]]].
  { rewrite E. discriminate. }
  rewrite E in Hm. rewrite Hm. cbn [List.length Nat.sub nth]. intros [= <-].
  split; [reflexivity|]. rewrite allIn_append. apply andb_true_iff. split.
  - revert H2. apply allIn_weaken. intros c Hc. now rewrite Hc.
  - apply someIn_allIn in H3. destruct H3 as [H3 _]. revert H3.
    apply allIn_weaken. intros c Hc. now rewrite Hc, orb_true_r.
Qed.

(** [strings.ToLower] is only applied to ASCII text. *)
Lemma chown_group_ascii (s group : string) :
  selectedGroup s = Some group ->
  allIn (fun c => nat_of_ascii c <? 128) group = true.
Proof.
  intros H. apply selectedGroup_Some in H. destruct H as [_ H].
  revert H. apply allIn_weaken. intros c.
  destruct c as [[] [] [] [] [] [] [] []]; vm_compute; congruence.
Qed.

Lemma analyzeChownCommand_cases (s : string) (source : Source) (line : Line) :
  analyzeChownCommand GenerateErrorLocation s source line =
  match selectedGroup s with
  | None => None
  | Some group =>
      if isRootGroup group then None
      else Some {| Name := "Owner set";
                   Status := StatusFailed;
                   Severity := SeverityMedium;
                   Description :=
                     "owner set on " ++ s ++ " "
                     ++ GenerateErrorLocation source line
                     ++ " could cause an unexpected behavior. " ++ nl
                     ++ tab ++ tab ++ tab
                     ++ "In OpenShift the group ID must always be set to the root group (0)" |}
  end.
Proof.
  unfold analyzeChownCommand, selectedGroup, isRootGroup.
  destruct (FindStringSubmatch re_chown s) as [|whole l]; [reflexivity|].
  cbn [List.length Nat.eqb].
  destruct (String.eqb (ToLower _) "root"), (String.eqb _ "0"); reflexivity.
Qed.

(** C6.  When no colon of the sub-command is followed by a group, the
    rule emits nothing; when a pair is found, the rule emits the medium
    "Owner set" finding exactly when the selected group is neither
    [root] in some case nor the text [0]. *)
Theorem chown_owner_set (s : string) (source : Source) (line : Line) :
  (~ hasGroupPair s ->
   analyzeChownCommand GenerateErrorLocation s source line = None)
  /\ (forall group,
        selectedGroup s = Some group ->
        if String.eqb (ToLower group) "root" || String.eqb group "0"
        then analyzeChownCommand GenerateErrorLocation s source line = None
        else exists r,
            analyzeChownCommand GenerateErrorLocation s source line = Some r
            /\ Name r = "Owner set" /\ Status r = StatusFailed
            /\ Severity r = SeverityMedium).
Proof.
  rewrite analyzeChownCommand_cases. split.
  - intros H. apply selectedGroup_None in H. now rewrite H.
  - intros group ->. fold (isRootGroup group).
    destruct (isRootGroup group); [reflexivity|]. eexists. repeat split.
Qed.

Lemma firstGroup_first before : forall tail group,
  groupAt tail = Some group ->
  (forall pre' tail',
      before ++ ":" ++ tail = pre' ++ ":" ++ tail' ->
      groupAt tail' <> None -> String.length before <= String.length pre') ->
  firstGroup (before ++ ":" ++ tail) = Some group.
Proof.
  induction before as [|x before IH]; intros tail group Hg Hfirst.
  - simpl. now rewrite Hg.
  - assert (IH' : firstGroup (before ++ ":" ++ tail) = Some group).
    { apply IH; [exact Hg|]. intros pre' tail' Hs Hn.
      apply le_S_n. apply (Hfirst (String x pre') tail'); [|exact Hn].
      change (String x (before ++ ":" ++ tail) = String x (pre' ++ ":" ++ tail')).
      now rewrite Hs. }
    change (String x before ++ ":" ++ tail) with (String x (before ++ ":" ++ tail)).
    cbn [firstGroup]. destruct (Ascii.eqb x ":") eqn:Ex; [|exact IH'].
    destruct (groupAt (before ++ ":" ++ tail)) as [g'|] eqn:Eg; [|exact IH'].
    exfalso. apply Ascii.eqb_eq in Ex. subst x.
    assert (H : String.length (String ":" before) <= String.length "").
    { apply (Hfirst "" (before ++ ":" ++ tail)); [reflexivity|]. now rewrite Eg. }
    simpl in H. lia.
Qed.

Lemma firstGroup_hasGroupPair (s group : string) :
  firstGroup s = Some group -> hasGroupPair s.
Proof.
  induction s as [|c s IH]; simpl; [discriminate|].
  assert (Hrec : firstGroup s = Some group -> hasGroupPair (String c s)).
  { intros H. destruct (IH H) as [pre [dollars [word [post [Hs [H1 H2]]]]]].
    exists (String c pre), dollars, word, post. repeat split; try assumption.
    change (String c s = String c (pre ++ ":" ++ dollars ++ word ++ post)).
    now rewrite <- Hs. }
  destruct (Ascii.eqb c ":") eqn:Ec; [|exact Hrec].
  destruct (groupAt s) as [g|] eqn:Eg; [|exact Hrec].
  intros _. apply Ascii.eqb_eq in Ec. subst c.
  destruct (groupAt_shape Eg) as [dollars [word [-> [H1 [H2 Hs]]]]].
  exists "", dollars, word, (drop (String.length (dollars ++ word)) s).
  repeat split; try assumption.
  change (String ":" s = String ":" (dollars ++ word ++ drop (String.length (dollars ++ word)) s)).
  rewrite Hs at 1. now rewrite append_assoc.
Qed.

(** The group the rule selects starts after the first colon of the
    sub-command that is followed by a group. *)
Lemma selectedGroup_Some_first (s group : string) :
  selectedGroup s = Some group ->
  exists before tail,
    s = before ++ ":" ++ tail /\ groupAt tail = Some group
    /\ forall pre' tail',
         s = pre' ++ ":" ++ tail' ->
         groupAt tail' <> None -> String.length before <= String.length pre'.
Proof.
  unfold selectedGroup, FindStringSubmatch.
  destruct (search re_chown 0 s) as [[[[st inp] len] cs]|] eqn:E; [|discriminate].
  cbn [List.length map seq NumSubexp re_chown Nat.add Nat.sub nth]. intros [= <-].
  destruct (search_matchAt E) as [pre [e [Hs [Hst [Hm _]]]]].
  destruct (search_Some E) as [pre2 [a [post [_ [Hst2 [_ [_ [_ Hleft]]]]]]]].
  simpl in Hst, Hst2.
  destruct (matchAt_chown Hm) as [owners [tail [cs1 [g [-> [Mo [Hg [_ ->]]]]]]]].
  exists (pre ++ owners), tail. split; [now rewrite append_assoc|].
  split; [exact Hg|].
  intros pre' tail' Hs' Hn.
  destruct (groupAt tail') as [g'|] eqn:Eg'; [clear Hn | congruence].
  destruct (groupAt_shape Eg') as [dollars [word [-> [H1 [H2 Ht']]]]].
  assert (Hle : String.length pre <= String.length pre').
  { rewrite <- Hst, Hst2.
    apply (Hleft pre' (":" ++ dollars ++ word)
             (drop (String.length (dollars ++ word)) tail') noCaps
             (setCap 2 (dollars ++ word) noCaps)).
    - rewrite Hs'. simpl. rewrite Ht' at 1. now rewrite !append_assoc.
    - now apply re_chown_intro. }
  rewrite Hs in Hs'.
  destruct (app_eq_split Hs' Hle) as [m [-> Hm']].
  rewrite !length_append. apply Nat.add_le_mono_l.
  destruct (Nat.le_gt_cases (String.length owners) (String.length m)) as [Hok|Hlt];
    [exact Hok | exfalso].
  symmetry in Hm'.
  destruct (app_eq_split Hm' (Nat.lt_le_incl _ _ Hlt)) as [m2 [Ho Hc]].
  apply chownOwner_inv in Mo. rewrite Ho, allIn_append in Mo.
  apply andb_true_iff in Mo. destruct Mo as [_ Mo].
  destruct m2 as [|x m2].
  - rewrite Ho, append_nil_r in Hlt. lia.
  - simpl in Hc. injection Hc as <- _. simpl in Mo. discriminate.
Qed.

(** The group the rule selects, read off the sub-command without the
    pattern. *)
Lemma selectedGroup_firstGroup (s : string) : selectedGroup s = firstGroup s.
Proof.
  destruct (selectedGroup s) as [group|] eqn:E.
  - destruct (selectedGroup_Some_first E) as [before [tail [-> [Hg Hfirst]]]].
    symmetry. now apply firstGroup_first.
  - apply selectedGroup_None in E.
    destruct (firstGroup s) as [group|] eqn:F; [|reflexivity].
    exfalso. apply E. exact (firstGroup_hasGroupPair F).
Qed.

Lemma selectedGroup_first (s : string) : selectedGroup s = firstPairGroup s.
Proof.
  unfold selectedGroup, firstPairGroup, FindAllStringSubmatch, FindStringSubmatch.
  cbn [FindAllFrom].
  destruct (search re_chown 0 s) as [[[[st inp] len] cs]|]; reflexivity.
Qed.

(** C2, as the code has it.  The group the rule compares is the group
    half of the first of the pairs the pattern finds, the leftmost one:
    the longest group after the first colon of the sub-command that is
    followed by a group.  The rule's decision is a function of that
    group: two sub-commands whose first pairs have the same group get
    the same decision. *)
Theorem chown_first_pair_decides (s1 s2 : string) (source : Source) (line : Line) :
  selectedGroup s1 = firstPairGroup s1
  /\ selectedGroup s1 = firstGroup s1
  /\ (firstPairGroup s1 = firstPairGroup s2 ->
      (analyzeChownCommand GenerateErrorLocation s1 source line = None
       <-> analyzeChownCommand GenerateErrorLocation s2 source line = None)).
Proof.
  split; [apply selectedGroup_first|]. split; [apply selectedGroup_firstGroup|].
  rewrite <- !selectedGroup_first, !analyzeChownCommand_cases. intros <-.
  destruct (selectedGroup s1) as [group|]; [|tauto].
  destruct (isRootGroup group); split; congruence.
Qed.

End ChownRule.

(** ** The classifier of the spec and the sudo/su rule *)

Section ClassifierFacts.

Import Classifier.



(** A space of [lead ++ word] lies in [lead] when [word] has none. *)
Lemma space_in_lead (lead word : string) :
  allIn isSpace lead = true -> allIn (fun c => negb (isSpace c)) word = true ->
  forall u c v,
    lead ++ word = u ++ String c v -> isSpace c = true ->
    allIn isSpace u = true.
Proof.
  intros Hl Hw. induction lead as [|x lead IH]; intros u c v Hs Hc.
  - exfalso. simpl in Hs. rewrite Hs, allIn_append in Hw. simpl in Hw.
    rewrite Hc in Hw. simpl in Hw. now rewrite andb_false_r in Hw.
  - simpl in Hl. apply andb_true_iff in Hl. destruct Hl as [Hx Hl].
    destruct u as [|y u]; [reflexivity|].
    simpl in Hs. injection Hs as <- Hs. simpl. rewrite Hx. simpl.
    exact (IH Hl u c v Hs Hc).
Qed.

(** Nothing after the keyword: the pattern of the rule, which wants
    whitespace after it, does not match. *)
Lemma bare_keyword (lead kw : string) :
  allIn isSpace lead = true -> kw = "sudo" \/ kw = "su" ->
  ~ invokesSudoOrSu (lead ++ kw).
Proof.
  intros Hl Hk [pre [before [kw' [after [post [Hs [_ [Hk' Ha]]]]]]]].
  destruct after as [|c after]; [discriminate|].
  simpl in Ha. apply andb_true_iff in Ha. destruct Ha as [Hc _].
  assert (Hu : allIn isSpace (pre ++ before ++ kw') = true).
  { apply (@space_in_lead lead kw Hl) with (c := c) (v := after ++ post).
    - destruct Hk as [-> | ->]; reflexivity.
    - rewrite Hs. now rewrite !append_assoc.
    - exact Hc. }
  rewrite !allIn_append in Hu.
  apply andb_true_iff in Hu. destruct Hu as [_ Hu].
  apply andb_true_iff in Hu. destruct Hu as [_ Hu].
  destruct Hk' as [-> | ->]; discriminate.
Qed.





End ClassifierFacts.

Section SudoRule.

Variables Source Line : Type.
Variable GenerateErrorLocation : Source -> Line -> string.

Lemma analyzeSudoAndSuCommand_cases (s : string) (source : Source) (line : Line) :
  (FindStringSubmatch re_sudo s = []
   /\ analyzeSudoAndSuCommand GenerateErrorLocation s source line = None)
  \/ (FindStringSubmatch re_sudo s <> []
      /\ exists r,
          analyzeSudoAndSuCommand GenerateErrorLocation s source line = Some r
          /\ Name r = "Use of sudo/su command" /\ Status r = StatusFailed
          /\ Severity r = SeverityMedium).
Proof.
  unfold analyzeSudoAndSuCommand.
  destruct (FindStringSubmatch re_sudo s) as [|whole l].
  - now left.
  - right. split; [discriminate|]. eexists. cbn [List.length Nat.ltb Nat.leb].
    repeat split.
Qed.




End SudoRule.

(** ** All rules, and the coordinator *)

Section Coordinator.

Variables Source Line : Type.
Variable GenerateErrorLocation : Source -> Line -> string.
Variable IsCommand : string -> string -> bool.

(** C10.  A finding of any of the three rules has the status fail. *)
Theorem rule_findings_fail (s : string) (source : Source) (line : Line)
  (r : Result) :
  analyzeChmodCommand GenerateErrorLocation s source line = Some r
  \/ analyzeChownCommand GenerateErrorLocation s source line = Some r
  \/ analyzeSudoAndSuCommand GenerateErrorLocation s source line = Some r ->
  Status r = StatusFailed.
Proof.
  intros [H|[H|H]].
  - rewrite analyzeChmodCommand_cases in H.
    destruct (extractedPermission s) as [permission|]; [|discriminate].
    destruct (String.length permission =? 3).
    + destruct (String.eqb (slice 1 2 permission) "7"); [discriminate|].
      now injection H as <-.
    + now injection H as <-.
  - rewrite analyzeChownCommand_cases in H.
    destruct (selectedGroup s) as [group|]; [|discriminate].
    destruct (isRootGroup group); [discriminate|]. now injection H as <-.
  - destruct (analyzeSudoAndSuCommand_cases GenerateErrorLocation s source line)
      as [[_ E]|[_ [r' [E [_ [Hst _]]]]]]; congruence.
Qed.

Lemma analyzeStep_analyzeCommand (source : Source) (line : Line)
  (results : list Result) (command : string) :
  analyzeStep GenerateErrorLocation IsCommand source line results command
  = (results
     ++ findingList (analyzeCommand GenerateErrorLocation IsCommand source line command))%list.
Proof.
  unfold analyzeStep, analyzeCommand, appendResult, findingList.
  destruct (isChmodCommand IsCommand command).
  - destruct (analyzeChmodCommand _ _ _ _); [reflexivity | now rewrite app_nil_r].
  - destruct (isChownCommand IsCommand command).
    + destruct (analyzeChownCommand _ _ _ _); [reflexivity | now rewrite app_nil_r].
    + destruct (isSudoOrSuCommand IsCommand command).
      * destruct (analyzeSudoAndSuCommand _ _ _ _);
          [reflexivity | now rewrite app_nil_r].
      * now rewrite app_nil_r.
Qed.

Lemma fold_analyzeStep (source : Source) (line : Line) (commands : list string) :
  forall results,
    fold_left (analyzeStep GenerateErrorLocation IsCommand source line) commands results
    = (results
       ++ flat_map
            (fun command =>
               findingList
                 (analyzeCommand GenerateErrorLocation IsCommand source line command))
            commands)%list.
Proof.
  induction commands as [|command commands IH]; intros results; simpl.
  - now rewrite app_nil_r.
  - now rewrite IH, analyzeStep_analyzeCommand, <- app_assoc.
Qed.

Lemma flat_map_findingList_length (A : Type) (f : A -> option Result) (l : list A) :
  List.length (flat_map (fun x => findingList (f x)) l) <= List.length l.
Proof.
  induction l as [|x l IH]; simpl; [lia|].
  rewrite length_app. destruct (f x); simpl; lia.
Qed.

(** C8.  The results of [Analyze] are, in the order of the
    sub-commands, the finding of each sub-command that has one: a
    sub-command adds one finding or none, so there are at most as many
    findings as sub-commands. *)
Theorem Analyze_results (ctx : Context) (node : Node) (source : Source)
  (line : Line) :
  PostProcess (Analyze GenerateErrorLocation IsCommand ctx node source line)
  = flat_map
      (fun command =>
         findingList
           (analyzeCommand GenerateErrorLocation IsCommand source line command))
      (Split (Value node) "&&")
  /\ List.length
       (PostProcess (Analyze GenerateErrorLocation IsCommand ctx node source line))
     <= List.length (Split (Value node) "&&").
Proof.
  assert (H : PostProcess (Analyze GenerateErrorLocation IsCommand ctx node source line)
              = flat_map
                  (fun command =>
                     findingList
                       (analyzeCommand GenerateErrorLocation IsCommand source line command))
                  (Split (Value node) "&&")).
  { unfold PostProcess, Analyze. cbn [ValueRunResult].
    now rewrite fold_analyzeStep. }
  split; [exact H|]. rewrite H. apply flat_map_findingList_length.
Qed.

End Coordinator.

(** ** The rules on sample sub-commands *)

Section Samples.

Import Sample.

(** The cases of the spec. *)
Example chmod_664 :
  map (fun r => (Name r, Severity r)) (analyze "chmod 664 /app")
  = [("Permission set", SeverityMedium)]
  /\ chmodProposal "664"
     = "Is it an executable file? Try updating permissions to 674".
Proof. split; vm_compute; reflexivity. Qed.

Example chmod_644 :
  chmodProposal "644"
  = "Is it an executable file? Try updating permissions to 674 otherwise set it to 664".
Proof. vm_compute; reflexivity. Qed.

Example chmod_770 : analyze "chmod 770 /app" = [].
Proof. vm_compute; reflexivity. Qed.

Example chown_node :
  map (fun r => (Name r, Severity r)) (analyze "chown node:node /app")
  = [("Owner set", SeverityMedium)].
Proof. vm_compute; reflexivity. Qed.

Example chown_root : analyze "chown -R root:root /app" = [].
Proof. vm_compute; reflexivity. Qed.

Example chown_ROOT_and_00 :
  analyze "chown app:ROOT /app" = []
  /\ map Name (analyze "chown app:00 /app") = ["Owner set"].
Proof. split; vm_compute; reflexivity. Qed.

Example sudo_then_chown :
  List.length (Split "sudo chmod 777 /app && chown 0:0 /app" "&&") = 2
  /\ map (fun r => (Name r, Severity r))
       (analyze "sudo chmod 777 /app && chown 0:0 /app")
     = [("Use of sudo/su command", SeverityMedium)].
Proof. split; vm_compute; reflexivity. Qed.

(** Instances of [&&] are counted as [strings.Count] counts them, from
    the left and without overlap. *)
Example Split_three_ampersands :
  Split "a&&&b" "&&" = ["a"; "&b"] /\ Count "a&&&b" "&&" = 1.
Proof. split; vm_compute; reflexivity. Qed.

End Samples.

(** C1, against the spec.  [chmod +x /app] is a permission change for
    the classifier and holds no numeric argument, and the rule emits
    nothing for it, not a "Syntax error" finding; [chmod] alone, with no
    digits, gets no finding either. *)
Lemma chmod_without_digits_no_finding :
  isChmodCommand Classifier.IsCommand "chmod +x /app" = true
  /\ extractedPermission "chmod +x /app" = None
  /\ ~ (exists r,
          analyzeChmodCommand Sample.GenerateErrorLocation "chmod +x /app"
            "Dockerfile" 7 = Some r)
  /\ Sample.analyze "chmod +x /app" = []
  /\ extractedPermission "chmod" = None
  /\ ~ (exists r,
          analyzeChmodCommand Sample.GenerateErrorLocation "chmod" "Dockerfile" 7
          = Some r)
  /\ Sample.analyze "chmod" = [].
Proof.
  repeat split; try (vm_compute; reflexivity);
    intros [r H]; vm_compute in H; discriminate.
Qed.

Lemma chmod_syntax_error_witness :
  (~ hasChmodArgs "chmod +x /app"
   /\ analyzeChmodCommand Sample.GenerateErrorLocation "chmod +x /app" "Dockerfile" 7
      = None)
  /\ (extractedPermission "chmod 0664 /app" = Some "0664"
      /\ String.length "0664" <> 3
      /\ exists r,
          analyzeChmodCommand Sample.GenerateErrorLocation "chmod 0664 /app"
            "Dockerfile" 7 = Some r
          /\ Name r = "Syntax error" /\ Status r = StatusFailed
          /\ Severity r = SeverityCritical).
Proof.
  assert (H1 : ~ hasChmodArgs "chmod +x /app").
  { apply extractedPermission_None. vm_compute. reflexivity. }
  assert (H2 : extractedPermission "chmod 0664 /app" = Some "0664").
  { vm_compute. reflexivity. }
  assert (H3 : String.length "0664" <> 3) by (simpl; lia).
  split.
  - split; [exact H1|].
    exact (proj1 (chmod_syntax_error Sample.GenerateErrorLocation
                    "chmod +x /app" "Dockerfile" 7) H1).
  - split; [exact H2|]. split; [exact H3|].
    exact (proj2 (chmod_syntax_error Sample.GenerateErrorLocation
                    "chmod 0664 /app" "Dockerfile" 7) "0664" H2 H3).
Defined.

Lemma chmod_group_digit_witness :
  extractedPermission "chmod 664 /app" = Some "664"
  /\ (exists r,
        analyzeChmodCommand Sample.GenerateErrorLocation "chmod 664 /app"
          "Dockerfile" 7 = Some r
        /\ Name r = "Permission set" /\ Status r = StatusFailed
        /\ Severity r = SeverityMedium)
  /\ extractedPermission "chmod 770 /app" = Some "770"
  /\ analyzeChmodCommand Sample.GenerateErrorLocation "chmod 770 /app"
       "Dockerfile" 7 = None.
Proof.
  assert (H1 : extractedPermission "chmod 664 /app" = Some "664").
  { vm_compute. reflexivity. }
  assert (H2 : extractedPermission "chmod 770 /app" = Some "770").
  { vm_compute. reflexivity. }
  split; [exact H1|]. split.
  - exact (@chmod_group_digit _ _ Sample.GenerateErrorLocation
             "chmod 664 /app" "Dockerfile" 7 "6" "6" "4" H1).
  - split; [exact H2|].
    exact (@chmod_group_digit _ _ Sample.GenerateErrorLocation
             "chmod 770 /app" "Dockerfile" 7 "7" "7" "0" H2).
Defined.

Lemma chmod_remediation_text_witness :
  extractedPermission "chmod 664 /app" = Some "664"
  /\ Ascii.eqb "6" "7" = false
  /\ exists r,
      analyzeChmodCommand Sample.GenerateErrorLocation "chmod 664 /app"
        "Dockerfile" 7 = Some r
      /\ Name r = "Permission set" /\ Status r = StatusFailed
      /\ Severity r = SeverityMedium
      /\ Description r
         = "permission set on chmod 664 /app in Dockerfile could cause an unexpected behavior. "
           ++ chmodProposal "664" ++ nl
           ++ "Explanation - in Openshift, directories and files need to be read/writable by the root group and files that must be executed should have group execute permissions"
      /\ Contains (chmodProposal "664") "Try updating permissions to 674" = true
      /\ Contains (chmodProposal "664") " otherwise set it to 664" = false.
Proof.
  assert (H1 : extractedPermission "chmod 664 /app" = Some "664").
  { vm_compute. reflexivity. }
  assert (H2 : Ascii.eqb "6" "7" = false) by reflexivity.
  split; [exact H1|]. split; [exact H2|].
  exact (@chmod_remediation_text _ _ Sample.GenerateErrorLocation
           "chmod 664 /app" "Dockerfile" 7 "6" "6" "4" H1 H2).
Defined.

(** C2, against the spec.  In [chown root:root /srv/app:v1] the pattern
    finds two pairs; the group of the last is [v1], the rule compares
    [root] and emits nothing.  With [node:node] first and the same last
    pair the rule emits a finding: the decision is not a function of the
    group of the last pair. *)
Lemma chown_last_pair_not_selected :
  lastPairGroup "chown root:root /srv/app:v1" = Some "v1"
  /\ selectedGroup "chown root:root /srv/app:v1" = Some "root"
  /\ analyzeChownCommand Sample.GenerateErrorLocation
       "chown root:root /srv/app:v1" "Dockerfile" 7 = None
  /\ lastPairGroup "chown node:node /srv/app:v1" = Some "v1"
  /\ analyzeChownCommand Sample.GenerateErrorLocation
       "chown node:node /srv/app:v1" "Dockerfile" 7 <> None.
Proof.
  repeat split; try (vm_compute; reflexivity).
  vm_compute. discriminate.
Qed.

Lemma chown_first_pair_decides_witness :
  selectedGroup "chown root:root /srv/app:v1"
  = firstPairGroup "chown root:root /srv/app:v1"
  /\ firstPairGroup "chown root:root /srv/app:v1"
     = firstPairGroup "chown -R 1001:root /opt"
  /\ (analyzeChownCommand Sample.GenerateErrorLocation
        "chown root:root /srv/app:v1" "Dockerfile" 7 = None
      <-> analyzeChownCommand Sample.GenerateErrorLocation
            "chown -R 1001:root /opt" "Dockerfile" 7 = None).
Proof.
  assert (H : firstPairGroup "chown root:root /srv/app:v1"
              = firstPairGroup "chown -R 1001:root /opt").
  { vm_compute. reflexivity. }
  split.
  - exact (proj1 (chown_first_pair_decides Sample.GenerateErrorLocation
                    "chown root:root /srv/app:v1" "chown -R 1001:root /opt"
                    "Dockerfile" 7)).
  - split; [exact H|].
    exact (proj2 (proj2 (chown_first_pair_decides Sample.GenerateErrorLocation
                           "chown root:root /srv/app:v1" "chown -R 1001:root /opt"
                           "Dockerfile" 7)) H).
Defined.

Lemma chown_owner_set_witness :
  (~ hasGroupPair "chown 1001 /deployments/run-java.sh"
   /\ analyzeChownCommand Sample.GenerateErrorLocation
        "chown 1001 /deployments/run-java.sh" "Dockerfile" 7 = None)
  /\ (selectedGroup "chown node:node /app" = Some "node"
      /\ exists r,
          analyzeChownCommand Sample.GenerateErrorLocation
            "chown node:node /app" "Dockerfile" 7 = Some r
          /\ Name r = "Owner set" /\ Status r = StatusFailed
          /\ Severity r = SeverityMedium)
  /\ (selectedGroup "chown -R app:Root /app" = Some "Root"
      /\ analyzeChownCommand Sample.GenerateErrorLocation
           "chown -R app:Root /app" "Dockerfile" 7 = None).
Proof.
  assert (H1 : ~ hasGroupPair "chown 1001 /deployments/run-java.sh").
  { apply selectedGroup_None. vm_compute. reflexivity. }
  assert (H2 : selectedGroup "chown node:node /app" = Some "node").
  { vm_compute. reflexivity. }
  assert (H3 : selectedGroup "chown -R app:Root /app" = Some "Root").
  { vm_compute. reflexivity. }
  split; [|split].
  - split; [exact H1|].
    exact (proj1 (chown_owner_set Sample.GenerateErrorLocation
                    "chown 1001 /deployments/run-java.sh" "Dockerfile" 7) H1).
  - split; [exact H2|].
    exact (proj2 (chown_owner_set Sample.GenerateErrorLocation
                    "chown node:node /app" "Dockerfile" 7) "node" H2).
  - split; [exact H3|].
    exact (proj2 (chown_owner_set Sample.GenerateErrorLocation
                    "chown -R app:Root /app" "Dockerfile" 7) "Root" H3).
Defined.

(** [sudo] with nothing after it: the classifier does not take it for
    [sudo], and the rule, run on it, returns nil. *)
Example sudo_alone :
  isSudoOrSuCommand Classifier.IsCommand "sudo" = false
  /\ analyzeSudoAndSuCommand Sample.GenerateErrorLocation "sudo" "Dockerfile" 7
     = None
  /\ Sample.analyze "apt-get install -y sudo && su" = [].
Proof. repeat split; vm_compute; reflexivity. Qed.


Lemma rule_findings_fail_witness :
  (analyzeChmodCommand Sample.GenerateErrorLocation "chmod 12 /app" "Dockerfile" 7
   = Some (syntaxError Sample.GenerateErrorLocation "Dockerfile" 7)
   \/ analyzeChownCommand Sample.GenerateErrorLocation "chmod 12 /app" "Dockerfile" 7
      = Some (syntaxError Sample.GenerateErrorLocation "Dockerfile" 7)
   \/ analyzeSudoAndSuCommand Sample.GenerateErrorLocation "chmod 12 /app" "Dockerfile" 7
      = Some (syntaxError Sample.GenerateErrorLocation "Dockerfile" 7))
  /\ Status (syntaxError Sample.GenerateErrorLocation "Dockerfile" 7) = StatusFailed.
Proof.
  assert (H : analyzeChmodCommand Sample.GenerateErrorLocation "chmod 12 /app"
                "Dockerfile" 7
              = Some (syntaxError Sample.GenerateErrorLocation "Dockerfile" 7)).
  { vm_compute. reflexivity. }
  split; [left; exact H|].
  exact (@rule_findings_fail _ _ Sample.GenerateErrorLocation
           "chmod 12 /app" "Dockerfile" 7 _ (or_introl H)).
Defined.

(** * More of [run.go] *)

(** ** How [strings.Split] and [Analyze] compose *)

Section SplitCompose.

Lemma countLoop_fuel (sep : string) : sep <> "" ->
  forall fuel1 fuel2 s,
    String.length s <= fuel1 -> String.length s <= fuel2 ->
    countLoop fuel1 s sep = countLoop fuel2 s sep.
Proof.
  intros Hsep. pose proof (sep_length Hsep) as Hl.
  assert (Hnil : forall fuel, countLoop fuel "" sep = 0).
  { intros [|fuel]; cbn [countLoop]; [reflexivity|].
    destruct (Index "" sep) as [i|] eqn:E; [|reflexivity].
    destruct (Index_Some E) as [_ Hi]. simpl in Hi. lia. }
  induction fuel1 as [|fuel1 IH]; intros fuel2 s H1 H2.
  - destruct s; [|simpl in H1; lia]. now rewrite !Hnil.
  - destruct fuel2 as [|fuel2].
    + destruct s; [|simpl in H2; lia]. now rewrite !Hnil.
    + cbn [countLoop]. destruct (Index s sep) as [i|] eqn:E; [|reflexivity].
      destruct (Index_Some E) as [_ Hi]. f_equal.
      apply IH; rewrite length_drop; lia.
Qed.

Lemma Split_None (s sep : string) :
  Index s sep = None -> Split s sep = [s].
Proof.
  intros E. unfold Split, Count.
  destruct (String.length s); cbn [countLoop genSplit]; [reflexivity|].
  rewrite E. reflexivity.
Qed.

Lemma Split_Some (s sep : string) (m : nat) :
  sep <> "" -> Index s sep = Some m ->
  Split s sep = take m s :: Split (drop (m + String.length sep) s) sep.
Proof.
  intros Hsep E. pose proof (sep_length Hsep) as Hl.
  destruct (Index_Some E) as [_ Hm]. unfold Split, Count.
  destruct (String.length s) as [|n] eqn:En; [lia|].
  cbn [countLoop]. rewrite E. cbn [genSplit]. rewrite E. f_equal. f_equal.
  apply (countLoop_fuel Hsep); rewrite length_drop; lia.
Qed.

Lemma take_app_le (n : nat) (a x : string) :
  n <= String.length a -> take n (a ++ x) = take n a.
Proof.
  revert a; induction n as [|n IH]; intros [|c a] H; simpl in *;
    try reflexivity; try lia.
  rewrite IH; [reflexivity | lia].
Qed.

Lemma drop_app_le (n : nat) (a x : string) :
  n <= String.length a -> drop n (a ++ x) = drop n a ++ x.
Proof.
  revert a; induction n as [|n IH]; intros [|c a] H; simpl in *;
    try reflexivity; try lia.
  apply IH. lia.
Qed.

Lemma HasPrefix_app_le (p : string) : forall a x,
  String.length p <= String.length a ->
  HasPrefix (a ++ x) p = HasPrefix a p.
Proof.
  induction p as [|c p IH]; intros a x H; [reflexivity|].
  destruct a as [|b a]; [simpl in H; lia|]. simpl.
  rewrite IH; [reflexivity | simpl in H; lia].
Qed.

(** The first occurrence in [a] is the first occurrence in [a ++ x]. *)
Lemma Index_app_l (a x sep : string) (m : nat) :
  Index a sep = Some m -> Index (a ++ x) sep = Some m.
Proof.
  revert m; induction a as [|c a IH]; intros m H.
  - destruct (Index_Some H) as [_ Hm]. destruct sep; [|simpl in Hm; lia].
    simpl in H. injection H as <-. now destruct x.
  - change (String c a ++ x) with (String c (a ++ x)).
    cbn [Index] in H |- *.
    destruct (HasPrefix (String c a) sep) eqn:E.
    + injection H as <-.
      assert (Hl : String.length sep <= String.length (String c a)).
      { apply HasPrefix_iff in E. destruct E as [t Ht].
        rewrite Ht, length_append. lia. }
      change (String c (a ++ x)) with (String c a ++ x).
      now rewrite (HasPrefix_app_le x Hl), E.
    + destruct (Index a sep) as [i|] eqn:Ei; [|discriminate].
      injection H as <-. destruct (Index_Some Ei) as [_ Hi].
      change (String c (a ++ x)) with (String c a ++ x).
      rewrite HasPrefix_app_le, E; [|simpl; lia].
      now rewrite (IH i eq_refl).
Qed.

Lemma endsWith_cons (c x y : ascii) (s : string) :
  endsWith c (String x (String y s)) = endsWith c (String y s).
Proof. reflexivity. Qed.

(** Where [a] holds no [&&] and does not end in [&], the first [&&] of
    [a ++ "&&" ++ b] is the one written out. *)
Lemma Index_amp_join (a b : string) :
  Index a "&&" = None -> endsWith "&" a = false ->
  Index (a ++ "&&" ++ b) "&&" = Some (String.length a).
Proof.
  induction a as [|c a IH]; intros Hn He; [reflexivity|].
  cbn [Index] in Hn.
  destruct (HasPrefix (String c a) "&&") eqn:E; [discriminate|].
  destruct (Index a "&&") as [i|] eqn:Ei; [discriminate|].
  change (String c a ++ "&&" ++ b) with (String c (a ++ "&&" ++ b)).
  cbn [Index].
  assert (E' : HasPrefix (String c (a ++ "&&" ++ b)) "&&" = false).
  { destruct a as [|y a].
    - cbn [endsWith] in He. cbn [append HasPrefix].
      rewrite Ascii.eqb_sym, He. reflexivity.
    - exact E. }
  rewrite E'. rewrite IH; [reflexivity | reflexivity |].
  destruct a as [|y a]; [reflexivity | exact He].
Qed.

(** The pieces of [a ++ "&&" ++ b] are those of [a], then those of [b]. *)
Lemma Split_amp_join (b : string) : forall n a,
  String.length a <= n -> endsWith "&" a = false ->
  Split (a ++ "&&" ++ b) "&&" = (Split a "&&" ++ Split b "&&")%list.
Proof.
  assert (Hsep : "&&" <> "") by discriminate.
  induction n as [|n IH]; intros a Hn He.
  - destruct a; [|simpl in Hn; lia].
    rewrite (@Split_Some ("" ++ "&&" ++ b) "&&" 0 Hsep eq_refl).
    reflexivity.
  - destruct (Index a "&&") as [m|] eqn:E.
    + destruct (Index_Some E) as [Ha Hm]. simpl in Hm.
      rewrite (Split_Some Hsep (Index_app_l ("&&" ++ b) E)).
      rewrite (Split_Some Hsep E). simpl String.length.
      rewrite take_app_le by lia. rewrite drop_app_le by lia.
      rewrite IH; [reflexivity | rewrite length_drop; lia |].
      clear -He Hm. revert a He Hm. generalize (m + 2) as k.
      induction k as [|k IHk]; intros a He Hm; [exact He|].
      destruct a as [|x a]; [reflexivity|]. simpl.
      apply IHk; [|simpl in Hm; lia].
      destruct a as [|y a]; [reflexivity | exact He].
    + rewrite (Split_Some Hsep (Index_amp_join b E He)).
      rewrite (Split_None E). simpl String.length.
      rewrite take_append.
      replace (String.length a + 2) with (String.length (a ++ "&&"))
        by (rewrite length_append; reflexivity).
      rewrite <- (append_assoc a "&&" b), drop_append. reflexivity.
Qed.

Lemma Contains_false_Index (s sub : string) :
  Contains s sub = false -> Index s sub = None.
Proof. unfold Contains. now destruct (Index s sub). Qed.

Lemma Contains_sub (v a p b x : string) :
  v = a ++ p ++ b -> Contains v x = false -> Contains p x = false.
Proof.
  intros Hv Hx. destruct (Contains p x) eqn:E; [|reflexivity].
  apply Contains_iff in E. destruct E as [a' [b' ->]].
  assert (H : Contains v x = true); [|congruence].
  apply Contains_iff. exists (a ++ a'), (b' ++ b).
  rewrite Hv. now rewrite !append_assoc.
Qed.

(** Every piece is a part of the text that was cut. *)
Lemma genSplit_part (sep : string) : forall n s p,
  In p (genSplit n s sep) -> exists a b, s = a ++ p ++ b.
Proof.
  assert (Hself : forall s : string, exists a b, s = a ++ s ++ b).
  { intros s. exists "", "". simpl. now rewrite append_nil_r. }
  induction n as [|n IH]; intros s p; cbn [genSplit].
  - intros [<-|[]]. apply Hself.
  - destruct (Index s sep) as [m|] eqn:E.
    + intros [<-|H].
      * exists "", (drop m s). simpl. now rewrite take_drop.
      * destruct (IH _ _ H) as [a [b Hd]].
        exists (take (m + String.length sep) s ++ a), b.
        rewrite append_assoc, <- Hd. now rewrite take_drop.
    + intros [<-|[]]. apply Hself.
Qed.

Lemma Count_None (s sep : string) : Index s sep = None -> Count s sep = 0.
Proof.
  intros E. unfold Count. destruct (String.length s); cbn [countLoop];
    [reflexivity | now rewrite E].
Qed.

Lemma Count_Some (s sep : string) (m : nat) :
  sep <> "" -> Index s sep = Some m ->
  Count s sep = S (Count (drop (m + String.length sep) s) sep).
Proof.
  intros Hsep E. pose proof (sep_length Hsep) as Hl.
  destruct (Index_Some E) as [_ Hm]. unfold Count.
  destruct (String.length s) as [|n] eqn:En; [lia|].
  cbn [countLoop]. rewrite E. f_equal.
  apply (countLoop_fuel Hsep); rewrite length_drop; lia.
Qed.

Lemma countAmpAmp_cons (c c' : ascii) (s : string) :
  countAmpAmp (String c (String c' s))
  = if Ascii.eqb c "&" && Ascii.eqb c' "&" then S (countAmpAmp s)
    else countAmpAmp (String c' s).
Proof. reflexivity. Qed.

(** [strings.Count] finds the instances of [&&] that are in the text. *)
Lemma Count_countAmpAmp : forall n s,
  String.length s <= n -> Count s "&&" = countAmpAmp s.
Proof.
  assert (Hsep : "&&" <> "") by discriminate.
  induction n as [|n IH]; intros s Hn.
  - destruct s; [reflexivity | simpl in Hn; lia].
  - destruct s as [|c s']; [reflexivity|].
    destruct s' as [|c' s''].
    + cbn [countAmpAmp]. apply Count_None. cbn [Index HasPrefix].
      now destruct (Ascii.eqb "&" c).
    + rewrite countAmpAmp_cons.
      assert (Hp : HasPrefix (String c (String c' s'')) "&&"
                   = Ascii.eqb c "&" && Ascii.eqb c' "&").
      { cbn [HasPrefix]. rewrite (Ascii.eqb_sym "&" c), (Ascii.eqb_sym "&" c').
        now rewrite andb_true_r. }
      destruct (Ascii.eqb c "&" && Ascii.eqb c' "&") eqn:E.
      * assert (Ei : Index (String c (String c' s'')) "&&" = Some 0).
        { cbn [Index]. now rewrite Hp. }
        rewrite (Count_Some Hsep Ei). cbn [Nat.add String.length drop].
        f_equal. apply IH. simpl in Hn. lia.
      * rewrite <- (IH (String c' s'')) by (simpl in Hn |- *; lia).
        destruct (Index (String c' s'') "&&") as [i|] eqn:Ei.
        -- assert (Ei' : Index (String c (String c' s'')) "&&" = Some (S i)).
           { cbn [Index]. rewrite Hp. cbn [Index] in Ei. now rewrite Ei. }
           rewrite (Count_Some Hsep Ei'), (Count_Some Hsep Ei). reflexivity.
        -- assert (Ei' : Index (String c (String c' s'')) "&&" = None).
           { cbn [Index]. rewrite Hp. cbn [Index] in Ei. now rewrite Ei. }
           now rewrite (Count_None Ei'), (Count_None Ei).
Qed.

End SplitCompose.

(** C7.  [strings.Split(value, "&&")] cuts purely on the text of the
    separator.  It yields one piece more than the value holds instances
    of [&&], counted on its bytes from the left without overlap, the
    count that [strings.Count] gives; joining the pieces with [&&] gives
    the value back byte for byte, so nothing is trimmed; no piece holds
    an [&&]; a value that holds no [&&], the empty one included, yields
    itself as its only piece, a value that holds one yields two pieces
    or more, and no value yields no piece. *)
Theorem Split_amp_pieces (value : string) :
  List.length (Split value "&&") = countAmpAmp value + 1
  /\ Count value "&&" = countAmpAmp value
  /\ Join (Split value "&&") "&&" = value
  /\ Forall (fun piece => forall a b, piece <> a ++ "&&" ++ b)
       (Split value "&&")
  /\ ((forall a b, value <> a ++ "&&" ++ b) -> Split value "&&" = [value])
  /\ ((exists a b, value = a ++ "&&" ++ b) ->
      1 <= countAmpAmp value /\ 2 <= List.length (Split value "&&"))
  /\ Split "" "&&" = [""].
Proof.
  assert (Hsep : "&&" <> "") by discriminate.
  destruct (@genSplit_countLoop "&&" Hsep (String.length value) value (le_n _))
    as [H1 [H2 H3]].
  fold (Count value "&&") in H1, H2, H3. fold (Split value "&&") in H1, H2, H3.
  pose proof (@Count_countAmpAmp (String.length value) value (le_n _)) as Hc.
  assert (Hlen : List.length (Split value "&&") = countAmpAmp value + 1).
  { rewrite H1, Hc. lia. }
  split; [exact Hlen|]. split; [exact Hc|]. split; [exact H2|]. split.
  - revert H3. apply Forall_impl. intros piece Hp.
    apply Index_None. now apply Contains_false_Index.
  - split; [|split; [|reflexivity]].
    + intros Hno. apply Split_None. now apply Index_None.
    + intros Hyes. apply Contains_iff in Hyes.
      apply (Count_Contains Hsep) in Hyes. rewrite Hc in Hyes. lia.
Qed.

Lemma Split_amp_pieces_witness :
  ((forall a b, "chmod 770 /app" <> a ++ "&&" ++ b)
   /\ Split "chmod 770 /app" "&&" = ["chmod 770 /app"])
  /\ ((exists a b, "mkdir /app && chmod 770 /app&&ls" = a ++ "&&" ++ b)
      /\ 1 <= countAmpAmp "mkdir /app && chmod 770 /app&&ls"
      /\ 2 <= List.length (Split "mkdir /app && chmod 770 /app&&ls" "&&"))
  /\ Split "mkdir /app && chmod 770 /app&&ls" "&&"
     = ["mkdir /app "; " chmod 770 /app"; "ls"]
  /\ countAmpAmp "mkdir /app && chmod 770 /app&&ls" = 2.
Proof.
  assert (H1 : forall a b, "chmod 770 /app" <> a ++ "&&" ++ b).
  { apply Index_None. vm_compute. reflexivity. }
  assert (H2 : exists a b, "mkdir /app && chmod 770 /app&&ls" = a ++ "&&" ++ b).
  { exists "mkdir /app ", " chmod 770 /app&&ls". reflexivity. }
  split; [|split; [|split]].
  - split; [exact H1|].
    exact (proj1 (proj2 (proj2 (proj2 (proj2
             (Split_amp_pieces "chmod 770 /app"))))) H1).
  - split; [exact H2|].
    exact (proj1 (proj2 (proj2 (proj2 (proj2 (proj2
             (Split_amp_pieces "mkdir /app && chmod 770 /app&&ls")))))) H2).
  - vm_compute. reflexivity.
  - vm_compute. reflexivity.
Defined.

(** X1.  Joining pieces with [&&] and splitting again gives the pieces
    back, when no piece holds an [&&] and no piece but the last ends in
    [&]. *)
Theorem Split_Join_pieces (pieces : list string) :
  pieces <> [] ->
  Forall (fun piece => Contains piece "&&" = false) pieces ->
  Forall (fun piece => endsWith "&" piece = false) (removelast pieces) ->
  Split (Join pieces "&&") "&&" = pieces.
Proof.
  induction pieces as [|x l IH]; intros Hne Hc He; [congruence|].
  destruct l as [|y l].
  - cbn [Join]. apply Split_None. apply Contains_false_Index.
    now inversion Hc.
  - change (Join (x :: y :: l) "&&") with (x ++ "&&" ++ Join (y :: l) "&&").
    change (removelast (x :: y :: l)) with (x :: removelast (y :: l)) in He.
    inversion Hc as [|? ? Hx Hc']. inversion He as [|? ? Hex He']. subst.
    rewrite (@Split_amp_join _ (String.length x) x (le_n _) Hex).
    rewrite (Split_None (Contains_false_Index Hx)).
    rewrite IH; [reflexivity | discriminate | assumption | assumption].
Qed.

Lemma Split_Join_pieces_witness :
  ["chmod 770 /app "; " chown 0:0 /app"] <> []
  /\ Forall (fun piece => Contains piece "&&" = false)
       ["chmod 770 /app "; " chown 0:0 /app"]
  /\ Forall (fun piece => endsWith "&" piece = false)
       (removelast ["chmod 770 /app "; " chown 0:0 /app"])
  /\ Split (Join ["chmod 770 /app "; " chown 0:0 /app"] "&&") "&&"
     = ["chmod 770 /app "; " chown 0:0 /app"].
Proof.
  assert (H1 : ["chmod 770 /app "; " chown 0:0 /app"] <> []) by discriminate.
  assert (H2 : Forall (fun piece => Contains piece "&&" = false)
                 ["chmod 770 /app "; " chown 0:0 /app"]).
  { repeat constructor. }
  assert (H3 : Forall (fun piece => endsWith "&" piece = false)
                 (removelast ["chmod 770 /app "; " chown 0:0 /app"])).
  { repeat constructor. }
  split; [exact H1|]. split; [exact H2|]. split; [exact H3|].
  exact (@Split_Join_pieces ["chmod 770 /app "; " chown 0:0 /app"] H1 H2 H3).
Defined.

Section AnalyzeCompose.

Variables Source Line : Type.
Variable GenerateErrorLocation : Source -> Line -> string.
Variable IsCommand : string -> string -> bool.

Lemma PostProcess_Analyze (ctx : Context) (node : Node) (source : Source)
  (line : Line) :
  PostProcess (Analyze GenerateErrorLocation IsCommand ctx node source line)
  = flat_map
      (fun command =>
         findingList
           (analyzeCommand GenerateErrorLocation IsCommand source line command))
      (Split (Value node) "&&").
Proof.
  unfold PostProcess, Analyze. cbn [ValueRunResult].
  now rewrite fold_analyzeStep.
Qed.

(** X2.  The findings of [a && b] are the findings of [a] followed by
    those of [b], when [a] does not end in [&]. *)
Theorem Analyze_amp_join (ctx : Context) (a b : string) (source : Source)
  (line : Line) :
  endsWith "&" a = false ->
  PostProcess
    (Analyze GenerateErrorLocation IsCommand ctx (mkNode (a ++ "&&" ++ b))
       source line)
  = (PostProcess
       (Analyze GenerateErrorLocation IsCommand ctx (mkNode a) source line)
     ++ PostProcess
          (Analyze GenerateErrorLocation IsCommand ctx (mkNode b) source line))%list.
Proof.
  intros He. rewrite !PostProcess_Analyze. cbn [Value].
  rewrite (@Split_amp_join b (String.length a) a (le_n _) He).
  apply flat_map_app.
Qed.

Lemma analyzeChmodCommand_no_chmod (s : string) (source : Source) (line : Line) :
  Contains s "chmod" = false ->
  analyzeChmodCommand GenerateErrorLocation s source line = None.
Proof.
  intros H. rewrite analyzeChmodCommand_cases.
  assert (E : extractedPermission s = None); [|now rewrite E].
  apply extractedPermission_None.
  intros [pre [ws1 [d [ws2 [post [Hs _]]]]]].
  assert (Hc : Contains s "chmod" = true); [|congruence].
  apply Contains_iff. exists pre, (ws1 ++ d ++ ws2 ++ post). exact Hs.
Qed.

Lemma analyzeChownCommand_no_colon (s : string) (source : Source) (line : Line) :
  Contains s ":" = false ->
  analyzeChownCommand GenerateErrorLocation s source line = None.
Proof.
  intros H. rewrite analyzeChownCommand_cases.
  assert (E : selectedGroup s = None); [|now rewrite E].
  apply selectedGroup_None.
  intros [pre [dollars [word [post [Hs _]]]]].
  assert (Hc : Contains s ":" = true); [|congruence].
  apply Contains_iff. exists pre, (dollars ++ word ++ post). exact Hs.
Qed.

Lemma analyzeSudoAndSuCommand_no_su (s : string) (source : Source) (line : Line) :
  Contains s "su" = false ->
  analyzeSudoAndSuCommand GenerateErrorLocation s source line = None.
Proof.
  intros H.
  destruct (analyzeSudoAndSuCommand_cases GenerateErrorLocation s source line)
    as [[_ E]|[E _]]; [exact E|].
  exfalso. apply E. apply sudo_no_match.
  intros [pre [before [kw [after [post [Hs [_ [Hk _]]]]]]]].
  assert (Hc : Contains s "su" = true); [|congruence].
  apply Contains_iff. destruct Hk as [-> | ->].
  - exists (pre ++ before), ("do" ++ after ++ post).
    rewrite Hs. now rewrite !append_assoc.
  - exists (pre ++ before), (after ++ post).
    rewrite Hs. now rewrite !append_assoc.
Qed.

(** X3.  Whatever [IsCommand] answers, a value that holds neither
    [chmod], nor a colon, nor [su] has no finding. *)
Theorem Analyze_no_trigger (ctx : Context) (node : Node) (source : Source)
  (line : Line) :
  Contains (Value node) "chmod" = false ->
  Contains (Value node) ":" = false ->
  Contains (Value node) "su" = false ->
  PostProcess (Analyze GenerateErrorLocation IsCommand ctx node source line) = [].
Proof.
  intros H1 H2 H3. rewrite PostProcess_Analyze.
  assert (Hp : forall p, In p (Split (Value node) "&&") ->
                         exists a b, Value node = a ++ p ++ b).
  { intros p. unfold Split. apply genSplit_part. }
  induction (Split (Value node) "&&") as [|p l IH]; [reflexivity|].
  cbn [flat_map]. rewrite IH; [|intros q Hq; apply Hp; now right].
  destruct (Hp p (or_introl eq_refl)) as [a [b Hv]].
  unfold analyzeCommand.
  rewrite (analyzeChmodCommand_no_chmod _ _ (Contains_sub Hv H1)).
  rewrite (analyzeChownCommand_no_colon _ _ (Contains_sub Hv H2)).
  rewrite (analyzeSudoAndSuCommand_no_su _ _ (Contains_sub Hv H3)).
  now destruct (isChmodCommand IsCommand p), (isChownCommand IsCommand p),
    (isSudoOrSuCommand IsCommand p).
Qed.

End AnalyzeCompose.

(** ** What every finding looks like *)

Section Findings.

Variables Source Line : Type.
Variable GenerateErrorLocation : Source -> Line -> string.
Variable IsCommand : string -> string -> bool.

Lemma chmod_wellFormed s source line r :
  analyzeChmodCommand GenerateErrorLocation s source line = Some r ->
  wellFormed (GenerateErrorLocation source line) s r.
Proof.
  rewrite analyzeChmodCommand_cases.
  destruct (extractedPermission s) as [permission|]; [|discriminate].
  destruct (String.length permission =? 3).
  - destruct (String.eqb (slice 1 2 permission) "7"); [discriminate|].
    intros [= <-]. unfold wellFormed. cbn [Status Name Severity Description].
    split; [reflexivity|]. split; [simpl; auto|]. split.
    + apply Contains_iff. exists ("permission set on " ++ s ++ " "). eexists.
      rewrite !append_assoc. reflexivity.
    + right. apply Contains_iff. exists "permission set on ". eexists.
      reflexivity.
  - intros [= <-]. unfold wellFormed, syntaxError.
    cbn [Status Name Severity Description].
    split; [reflexivity|]. split; [simpl; auto|]. split; [|now left].
    apply Contains_iff. exists "unable to fetch args of chmod command ".
    eexists. reflexivity.
Qed.

Lemma chown_wellFormed s source line r :
  analyzeChownCommand GenerateErrorLocation s source line = Some r ->
  wellFormed (GenerateErrorLocation source line) s r.
Proof.
  rewrite analyzeChownCommand_cases.
  destruct (selectedGroup s) as [group|]; [|discriminate].
  destruct (isRootGroup group); [discriminate|].
  intros [= <-]. unfold wellFormed. cbn [Status Name Severity Description].
  split; [reflexivity|]. split; [simpl; auto|]. split.
  - apply Contains_iff. exists ("owner set on " ++ s ++ " "). eexists.
    rewrite !append_assoc. reflexivity.
  - right. apply Contains_iff. exists "owner set on ". eexists. reflexivity.
Qed.

Lemma sudo_wellFormed s source line r :
  analyzeSudoAndSuCommand GenerateErrorLocation s source line = Some r ->
  wellFormed (GenerateErrorLocation source line) s r.
Proof.
  unfold analyzeSudoAndSuCommand.
  destruct (0 <? List.length (FindStringSubmatch re_sudo s)); [|discriminate].
  intros [= <-]. unfold wellFormed. cbn [Status Name Severity Description].
  split; [reflexivity|]. split; [simpl; auto|]. split.
  - apply Contains_iff. exists ("sudo/su command used in '" ++ s ++ "' ").
    eexists. rewrite !append_assoc. reflexivity.
  - right. apply Contains_iff. exists "sudo/su command used in '". eexists.
    reflexivity.
Qed.

Lemma analyzeCommand_wellFormed s source line r :
  analyzeCommand GenerateErrorLocation IsCommand source line s = Some r ->
  wellFormed (GenerateErrorLocation source line) s r.
Proof.
  unfold analyzeCommand.
  destruct (isChmodCommand IsCommand s); [apply chmod_wellFormed|].
  destruct (isChownCommand IsCommand s); [apply chown_wellFormed|].
  destruct (isSudoOrSuCommand IsCommand s); [apply sudo_wellFormed|].
  discriminate.
Qed.

(** A finding of [Analyze] is the finding of one of the sub-commands. *)
Lemma Analyze_finding_command ctx node source line r :
  In r (PostProcess (Analyze GenerateErrorLocation IsCommand ctx node source line)) ->
  exists command,
    In command (Split (Value node) "&&")
    /\ analyzeCommand GenerateErrorLocation IsCommand source line command = Some r.
Proof.
  rewrite PostProcess_Analyze. intros H. apply in_flat_map in H.
  destruct H as [command [Hin Hr]]. exists command. split; [exact Hin|].
  destruct (analyzeCommand GenerateErrorLocation IsCommand source line command)
    as [r'|]; simpl in Hr; [|contradiction].
  destruct Hr as [->|[]]. reflexivity.
Qed.

(** X4.  Every finding of [Analyze] has the status fail and one of four
    titles, "Syntax error" with the severity critical, the three others
    with the severity medium. *)
Theorem Analyze_finding_kinds (ctx : Context) (node : Node) (source : Source)
  (line : Line) (r : Result) :
  In r (PostProcess (Analyze GenerateErrorLocation IsCommand ctx node source line)) ->
  Status r = StatusFailed /\ In (Name r, Severity r) findingKinds.
Proof.
  intros H. apply Analyze_finding_command in H. destruct H as [command [_ H]].
  apply analyzeCommand_wellFormed in H. destruct H as [H1 [H2 _]]. now split.
Qed.

(** X5.  The description of every finding of [Analyze] holds the text of
    the location, and, unless the finding is a "Syntax error", the
    sub-command the finding is about, byte for byte. *)
Theorem Analyze_descriptions (ctx : Context) (node : Node) (source : Source)
  (line : Line) (r : Result) :
  In r (PostProcess (Analyze GenerateErrorLocation IsCommand ctx node source line)) ->
  Contains (Description r) (GenerateErrorLocation source line) = true
  /\ (Name r = "Syntax error"
      \/ exists command,
          In command (Split (Value node) "&&")
          /\ Contains (Description r) command = true).
Proof.
  intros H. apply Analyze_finding_command in H. destruct H as [command [Hin H]].
  apply analyzeCommand_wellFormed in H. destruct H as [_ [_ [H3 H4]]].
  split; [exact H3|]. destruct H4 as [H4|H4]; [now left | right; eauto].
Qed.

(** X6.  A "Syntax error" finding does not tell which sub-command it is
    about: at one location, any two of them are equal. *)
Theorem syntax_errors_alike (s1 s2 : string) (source : Source) (line : Line)
  (r1 r2 : Result) :
  analyzeChmodCommand GenerateErrorLocation s1 source line = Some r1 ->
  analyzeChmodCommand GenerateErrorLocation s2 source line = Some r2 ->
  Name r1 = "Syntax error" -> Name r2 = "Syntax error" ->
  r1 = r2.
Proof.
  assert (H : forall s r,
             analyzeChmodCommand GenerateErrorLocation s source line = Some r ->
             Name r = "Syntax error" ->
             r = syntaxError GenerateErrorLocation source line).
  { intros s r. rewrite analyzeChmodCommand_cases.
    destruct (extractedPermission s) as [permission|]; [|discriminate].
    destruct (String.length permission =? 3).
    - destruct (String.eqb (slice 1 2 permission) "7"); [discriminate|].
      intros [= <-]. discriminate.
    - now intros [= <-]. }
  intros H1 H2 N1 N2. now rewrite (H s1 r1 H1 N1), (H s2 r2 H2 N2).
Qed.

End Findings.

(** ** What the chown rule reads *)

Section ChownReading.

Variables Source Line : Type.
Variable GenerateErrorLocation : Source -> Line -> string.

Lemma Contains_byte_cons (c x : ascii) (s : string) :
  Contains (String c s) (String x "")
  = Ascii.eqb x c || Contains s (String x "").
Proof.
  unfold Contains. cbn [Index HasPrefix].
  destruct (Ascii.eqb x c); cbn [andb orb].
  - now destruct s.
  - replace (HasPrefix s "") with true by now destruct s.
    cbn [andb]. now destruct (Index s (String x "")).
Qed.

Lemma firstGroup_skip (pre s : string) :
  Contains pre ":" = false -> firstGroup (pre ++ s) = firstGroup s.
Proof.
  induction pre as [|c pre IH]; intros H; [reflexivity|].
  rewrite Contains_byte_cons in H. apply orb_false_iff in H.
  destruct H as [Hc Hp].
  change (String c pre ++ s) with (String c (pre ++ s)). cbn [firstGroup].
  rewrite Ascii.eqb_sym, Hc. now apply IH.
Qed.

Lemma span_empty_stop p rest :
  span p rest = "" -> forall c t', rest = String c t' -> p c = false.
Proof.
  intros H c t' ->. simpl in H. now destruct (p c).
Qed.

Lemma groupAt_exact dollars word rest :
  allIn isSigil dollars = true -> someIn isWord word = true ->
  span isWord rest = "" ->
  groupAt (dollars ++ word ++ rest) = Some (dollars ++ word).
Proof.
  intros Hd Hw Hr. destruct (someIn_allIn Hw) as [Ha Hne].
  destruct word as [|c word]; [congruence|].
  simpl in Ha. apply andb_true_iff in Ha. destruct Ha as [Hc Ha].
  unfold groupAt. rewrite span_stop; [|exact Hd|].
  - rewrite drop_append.
    rewrite (@span_stop isWord (String c word) rest);
      [reflexivity | simpl; now rewrite Hc, Ha | now apply span_empty_stop].
  - intros c' t' [= <- _]. now apply word_not_sigil.
Qed.

(** X8.  What stands before the first colon of a sub-command, the owner
    among it, is of no account to the chown rule: the selected group and
    the decision are those of the sub-command without it. *)
Theorem chown_before_colon_ignored (pre s : string) (source : Source)
  (line : Line) :
  Contains pre ":" = false ->
  selectedGroup (pre ++ s) = selectedGroup s
  /\ (analyzeChownCommand GenerateErrorLocation (pre ++ s) source line = None
      <-> analyzeChownCommand GenerateErrorLocation s source line = None).
Proof.
  intros H.
  assert (E : selectedGroup (pre ++ s) = selectedGroup s).
  { rewrite !selectedGroup_firstGroup. now apply firstGroup_skip. }
  split; [exact E|]. rewrite !analyzeChownCommand_cases, E.
  destruct (selectedGroup s) as [group|]; [|tauto].
  destruct (isRootGroup group); split; congruence.
Qed.

(** X9.  The selected group ends at the first byte after the colon that
    is neither a letter, a digit nor an underscore, dollar signs in
    front apart. *)
Theorem chown_group_extent (pre dollars word rest : string) :
  Contains pre ":" = false ->
  allIn isSigil dollars = true -> someIn isWord word = true ->
  span isWord rest = "" ->
  selectedGroup (pre ++ ":" ++ dollars ++ word ++ rest) = Some (dollars ++ word).
Proof.
  intros Hp Hd Hw Hr. rewrite selectedGroup_firstGroup, firstGroup_skip by exact Hp.
  change (":" ++ dollars ++ word ++ rest) with (String ":" (dollars ++ word ++ rest)).
  cbn [firstGroup]. rewrite Ascii.eqb_refl. now rewrite groupAt_exact.
Qed.

(** X10.  A group written as a variable reference gets the finding,
    whatever the variable holds. *)
Theorem chown_variable_group (s group : string) (source : Source) (line : Line) :
  selectedGroup s = Some group -> HasPrefix group "$" = true ->
  exists r,
    analyzeChownCommand GenerateErrorLocation s source line = Some r
    /\ Name r = "Owner set" /\ Severity r = SeverityMedium.
Proof.
  intros Hs Hg. rewrite analyzeChownCommand_cases, Hs.
  apply HasPrefix_iff in Hg. destruct Hg as [t ->].
  assert (E : isRootGroup ("$" ++ t) = false) by reflexivity.
  rewrite E. eexists. repeat split.
Qed.

(** X11.  The group the rule compares is never empty, is made of dollar
    signs, letters, digits and underscores only, and stands after a
    colon in the sub-command. *)
Theorem chown_group_alphabet (s group : string) :
  selectedGroup s = Some group ->
  group <> ""
  /\ allIn (fun c => isSigil c || isWord c) group = true
  /\ Contains s (":" ++ group) = true.
Proof.
  intros H. destruct (selectedGroup_Some H) as [_ Ha].
  destruct (selectedGroup_Some_first H) as [before [tail [Hs [Hg _]]]].
  destruct (groupAt_shape Hg) as [dollars [word [Hgw [_ [Hw Ht]]]]].
  split; [|split; [exact Ha|]].
  - rewrite Hgw. destruct dollars; [|discriminate].
    destruct word; [discriminate | discriminate].
  - apply Contains_iff. exists before, (drop (String.length group) tail).
    rewrite Hs. rewrite Ht at 1. reflexivity.
Qed.

End ChownReading.

(** ** What the chmod rule reads *)

Section ChmodReading.

Variables Source Line : Type.
Variable GenerateErrorLocation : Source -> Line -> string.

Lemma digit_not_space c : isDigit c = true -> isSpace c = false.
Proof. destruct c as [[] [] [] [] [] [] [] []]; vm_compute; congruence. Qed.

Lemma space_not_digit c : isSpace c = true -> isDigit c = false.
Proof. destruct c as [[] [] [] [] [] [] [] []]; vm_compute; congruence. Qed.

Lemma someIn_head p s :
  someIn p s = true -> exists c t, s = String c t /\ p c = true.
Proof.
  destruct s as [|c t]; [discriminate|]. simpl. intros H.
  apply andb_true_iff in H. destruct H as [Hc _]. eauto.
Qed.

Lemma chmodArgAt_intro ws1 d ws2 post :
  someIn isSpace ws1 = true -> someIn isDigit d = true ->
  someIn isSpace ws2 = true ->
  chmodArgAt ("chmod" ++ ws1 ++ d ++ ws2 ++ post) = Some d.
Proof.
  intros H1 H2 H3.
  destruct (someIn_allIn H1) as [A1 _]. destruct (someIn_allIn H2) as [A2 _].
  destruct (someIn_head H2) as [cd [td [Ed Hcd]]].
  destruct (someIn_head H3) as [cs [ts [Es Hcs]]].
  unfold chmodArgAt.
  change (HasPrefix ("chmod" ++ ws1 ++ d ++ ws2 ++ post) "chmod")
    with (HasPrefix (ws1 ++ d ++ ws2 ++ post) "").
  replace (HasPrefix (ws1 ++ d ++ ws2 ++ post) "") with true
    by now destruct (ws1 ++ d ++ ws2 ++ post).
  change (drop 5 ("chmod" ++ ws1 ++ d ++ ws2 ++ post))
    with (ws1 ++ d ++ ws2 ++ post).
  rewrite (@span_stop isSpace ws1 (d ++ ws2 ++ post) A1).
  - rewrite drop_append.
    rewrite (@span_stop isDigit d (ws2 ++ post) A2).
    + rewrite drop_append. rewrite Es. cbn [append]. rewrite Hcs.
      destruct ws1; [discriminate|]. rewrite Ed. reflexivity.
    + intros c t'. rewrite Es. intros [= <- _]. now apply space_not_digit.
  - intros c t'. rewrite Ed. intros [= <- _]. now apply digit_not_space.
Qed.

Lemma chmodArgAt_inv t d :
  chmodArgAt t = Some d ->
  exists ws1 ws2 post,
    t = "chmod" ++ ws1 ++ d ++ ws2 ++ post
    /\ someIn isSpace ws1 = true /\ someIn isDigit d = true
    /\ someIn isSpace ws2 = true.
Proof.
  unfold chmodArgAt. destruct (HasPrefix t "chmod") eqn:E; [|discriminate].
  apply HasPrefix_drop in E. simpl String.length in E.
  set (r := drop 5 t) in *.
  set (ws1 := span isSpace r). set (r1 := drop (String.length ws1) r).
  set (dd := span isDigit r1). set (r2 := drop (String.length dd) r1).
  assert (Hr : r = ws1 ++ r1) by (symmetry; apply span_drop).
  assert (Hr1 : r1 = dd ++ r2) by (symmetry; apply span_drop).
  assert (A1 : allIn isSpace ws1 = true) by apply span_allIn.
  assert (A2 : allIn isDigit dd = true) by apply span_allIn.
  destruct ws1 as [|c1 w1] eqn:E1; [discriminate|].
  destruct dd as [|c2 w2] eqn:E2; [discriminate|].
  destruct r2 as [|c3 post] eqn:E3; [discriminate|].
  destruct (isSpace c3) eqn:Hc3; [|discriminate]. intros [= <-].
  exists (String c1 w1), (String c3 ""), post. repeat split.
  - rewrite E, Hr, Hr1. reflexivity.
  - exact A1.
  - exact A2.
  - simpl. now rewrite Hc3.
Qed.

Lemma firstChmodArg_found t d :
  chmodArgAt t = Some d -> firstChmodArg t = Some d.
Proof. intros H. destruct t; cbn [firstChmodArg]; now rewrite H. Qed.

Lemma firstChmodArg_first pre : forall t d,
  chmodArgAt t = Some d ->
  (forall pre' t',
      pre ++ t = pre' ++ t' -> chmodArgAt t' <> None ->
      String.length pre <= String.length pre') ->
  firstChmodArg (pre ++ t) = Some d.
Proof.
  induction pre as [|x pre IH]; intros t d Hd Hfirst.
  - now apply firstChmodArg_found.
  - assert (IH' : firstChmodArg (pre ++ t) = Some d).
    { apply IH; [exact Hd|]. intros pre' t' Hs Hn.
      apply le_S_n. apply (Hfirst (String x pre') t'); [|exact Hn].
      change (String x (pre ++ t) = String x (pre' ++ t')). now rewrite Hs. }
    change (String x pre ++ t) with (String x (pre ++ t)).
    cbn [firstChmodArg].
    destruct (chmodArgAt (String x (pre ++ t))) as [d'|] eqn:E; [|exact IH'].
    exfalso.
    assert (H : String.length (String x pre) <= String.length "").
    { apply (Hfirst "" (String x (pre ++ t))); [reflexivity|]. now rewrite E. }
    simpl in H. lia.
Qed.

Lemma firstChmodArg_hasChmodArgs (s d : string) :
  firstChmodArg s = Some d -> hasChmodArgs s.
Proof.
  assert (Hat : forall t d', chmodArgAt t = Some d' -> hasChmodArgs t).
  { intros t d' H. destruct (chmodArgAt_inv H) as [ws1 [ws2 [post [Ht [H1 [H2 H3]]]]]].
    exists "", ws1, d', ws2, post. now repeat split. }
  induction s as [|c s IH]; cbn [firstChmodArg].
  - destruct (chmodArgAt "") eqn:E; [|discriminate]. intros _. exact (Hat _ _ E).
  - destruct (chmodArgAt (String c s)) eqn:E; [intros _; exact (Hat _ _ E)|].
    intros H. destruct (IH H) as [pre [ws1 [d' [ws2 [post [Hs [H1 [H2 H3]]]]]]]].
    exists (String c pre), ws1, d', ws2, post. repeat split; try assumption.
    change (String c s = String c (pre ++ "chmod" ++ ws1 ++ d' ++ ws2 ++ post)).
    now rewrite <- Hs.
Qed.

(** The numeric argument the rule extracts, read off the sub-command
    without the pattern. *)
Lemma extractedPermission_firstChmodArg (s : string) :
  extractedPermission s = firstChmodArg s.
Proof.
  destruct (extractedPermission s) as [p|] eqn:E.
  - unfold extractedPermission in E.
    destruct (FindStringSubmatch re_chmod s) as [|whole l] eqn:Em; [discriminate|].
    destruct (@chmod_match s)
      as [pre [ws1 [d [ws2 [rest [post [Hs [H1 [H2 [H3 [_ [Hm Hleft]]]]]]]]]]]].
    { rewrite Em. discriminate. }
    rewrite Em in Hm. rewrite Hm in E. cbn [nth] in E. injection E as <-.
    symmetry. rewrite Hs.
    apply (@firstChmodArg_first pre ("chmod" ++ ws1 ++ d ++ ws2 ++ rest ++ post) d).
    + now apply chmodArgAt_intro.
    + intros pre' t' Hs' Hn. destruct (chmodArgAt t') as [d'|] eqn:Ed; [|congruence].
      destruct (chmodArgAt_inv Ed) as [w1 [w2 [post' [-> [G1 [G2 G3]]]]]].
      apply (Hleft pre' w1 d' w2 post'); try assumption.
      rewrite Hs. exact Hs'.
  - apply extractedPermission_None in E.
    destruct (firstChmodArg s) as [d|] eqn:F; [|reflexivity].
    exfalso. apply E. exact (firstChmodArg_hasChmodArgs F).
Qed.

(** X12.  The numeric argument the chmod rule extracts is the digits
    after the first [chmod] of the sub-command that is followed by
    whitespace, digits and whitespace; it stands in the sub-command
    between whitespace, so it is the whole run of digits there. *)
Theorem chmod_argument_scan (s : string) :
  extractedPermission s = firstChmodArg s
  /\ forall d,
       extractedPermission s = Some d ->
       someIn isDigit d = true
       /\ exists pre ws1 ws2 post,
           s = pre ++ "chmod" ++ ws1 ++ d ++ ws2 ++ post
           /\ someIn isSpace ws1 = true /\ someIn isSpace ws2 = true.
Proof.
  split; [apply extractedPermission_firstChmodArg|].
  intros d H. rewrite extractedPermission_firstChmodArg in H.
  clear - H. revert H. induction s as [|c s IH]; cbn [firstChmodArg].
  - destruct (chmodArgAt "") as [d'|] eqn:E; [|discriminate]. intros [= ->].
    destruct (chmodArgAt_inv E) as [ws1 [ws2 [post [Ht [H1 [H2 H3]]]]]].
    split; [exact H2|]. exists "", ws1, ws2, post. now repeat split.
  - destruct (chmodArgAt (String c s)) as [d'|] eqn:E.
    + intros [= ->].
      destruct (chmodArgAt_inv E) as [ws1 [ws2 [post [Ht [H1 [H2 H3]]]]]].
      split; [exact H2|]. exists "", ws1, ws2, post. now repeat split.
    + intros H. destruct (IH H) as [H2 [pre [ws1 [ws2 [post [Hs [H1 H3]]]]]]].
      split; [exact H2|]. exists (String c pre), ws1, ws2, post.
      repeat split; try assumption.
      change (String c s = String c (pre ++ "chmod" ++ ws1 ++ d ++ ws2 ++ post)).
      now rewrite <- Hs.
Qed.

Lemma allIn_part p (a b c : string) :
  allIn p (a ++ b ++ c) = true -> allIn p b = true.
Proof.
  rewrite !allIn_append. intros H.
  apply andb_true_iff in H. destruct H as [_ H].
  apply andb_true_iff in H. now destruct H.
Qed.

(** X13.  A sub-command without any decimal digit, a symbolic mode for
    one, gets nothing from the chmod rule. *)
Theorem chmod_no_digit (s : string) (source : Source) (line : Line) :
  allIn (fun c => negb (isDigit c)) s = true ->
  analyzeChmodCommand GenerateErrorLocation s source line = None.
Proof.
  intros H. rewrite analyzeChmodCommand_cases.
  assert (E : extractedPermission s = None); [|now rewrite E].
  apply extractedPermission_None.
  intros [pre [ws1 [d [ws2 [post [Hs [_ [Hd _]]]]]]]].
  assert (Hs' : s = (pre ++ "chmod" ++ ws1) ++ d ++ ws2 ++ post).
  { rewrite Hs. now rewrite !append_assoc. }
  rewrite Hs' in H. apply allIn_part in H.
  destruct (someIn_head Hd) as [c [t [-> Hc]]].
  simpl in H. rewrite Hc in H. discriminate.
Qed.

(** X14.  The three outcomes of the chmod rule: nothing exactly when no
    argument is extracted or the argument is three bytes with 7 in the
    middle; the "Syntax error" finding exactly when an argument is
    extracted and is not three bytes long. *)
Theorem chmod_rule_outcomes (s : string) (source : Source) (line : Line) :
  (analyzeChmodCommand GenerateErrorLocation s source line = None
   <-> extractedPermission s = None
       \/ exists owner other,
           extractedPermission s
           = Some (String owner (String "7" (String other ""))))
  /\ forall r,
       analyzeChmodCommand GenerateErrorLocation s source line = Some r ->
       (Name r = "Syntax error"
        <-> exists permission,
             extractedPermission s = Some permission
             /\ String.length permission <> 3).
Proof.
  rewrite analyzeChmodCommand_cases.
  destruct (extractedPermission s) as [p|]; [|split].
  - destruct (String.length p =? 3) eqn:El.
    + apply Nat.eqb_eq in El.
      destruct p as [|o [|g [|t [|x p]]]]; try discriminate.
      unfold slice. cbn [Nat.sub drop take String.eqb].
      destruct (Ascii.eqb g "7") eqn:Eg.
      * apply Ascii.eqb_eq in Eg. subst g. split.
        -- split; [intros _; right; eauto | reflexivity].
        -- discriminate.
      * split.
        -- split; [discriminate|]. intros [H|[o' [t' H]]]; [discriminate|].
           injection H as _ Hg _. subst g. now rewrite Ascii.eqb_refl in Eg.
        -- intros r [= <-]. cbn [Name]. split; [discriminate|].
           intros [p' [[= <-] Hp]]. simpl in Hp. lia.
    + apply Nat.eqb_neq in El. split.
      * split; [discriminate|]. intros [H|[o' [t' H]]]; [discriminate|].
        injection H as ->. simpl in El. lia.
      * intros r [= <-]. cbn [Name syntaxError]. split; [eauto | reflexivity].
  - split; [now left | reflexivity].
  - discriminate.
Qed.

End ChmodReading.

(** ** Leading whitespace *)

Section LeadingWhitespace.

Variables Source Line : Type.
Variable GenerateErrorLocation : Source -> Line -> string.

Lemma space_not_c c : isSpace c = true -> Ascii.eqb "c" c = false.
Proof. destruct c as [[] [] [] [] [] [] [] []]; vm_compute; congruence. Qed.

Lemma space_not_colon c : isSpace c = true -> Ascii.eqb c ":" = false.
Proof. destruct c as [[] [] [] [] [] [] [] []]; vm_compute; congruence. Qed.

Lemma firstChmodArg_leading ws s :
  allIn isSpace ws = true -> firstChmodArg (ws ++ s) = firstChmodArg s.
Proof.
  induction ws as [|c ws IH]; intros H; [reflexivity|].
  simpl in H. apply andb_true_iff in H. destruct H as [Hc Hw].
  change (String c ws ++ s) with (String c (ws ++ s)). cbn [firstChmodArg].
  unfold chmodArgAt at 1. cbn [HasPrefix]. rewrite (space_not_c Hc).
  cbn [andb]. now apply IH.
Qed.

Lemma firstGroup_leading ws s :
  allIn isSpace ws = true -> firstGroup (ws ++ s) = firstGroup s.
Proof.
  induction ws as [|c ws IH]; intros H; [reflexivity|].
  simpl in H. apply andb_true_iff in H. destruct H as [Hc Hw].
  change (String c ws ++ s) with (String c (ws ++ s)). cbn [firstGroup].
  rewrite (space_not_colon Hc). now apply IH.
Qed.

(** A byte that is no whitespace lies after leading whitespace. *)
Lemma after_leading ws : forall s u c v,
  allIn isSpace ws = true -> ws ++ s = u ++ String c v -> isSpace c = false ->
  String.length ws <= String.length u.
Proof.
  induction ws as [|x ws IH]; intros s u c v Hw Hs Hc; [simpl; lia|].
  simpl in Hw. apply andb_true_iff in Hw. destruct Hw as [Hx Hw].
  destruct u as [|y u].
  - simpl in Hs. injection Hs as -> _. congruence.
  - simpl in Hs. injection Hs as _ Hs. simpl. apply le_n_S.
    exact (IH s u c v Hw Hs Hc).
Qed.

Lemma invokesSudoOrSu_leading ws s :
  allIn isSpace ws = true ->
  (invokesSudoOrSu (ws ++ s) <-> invokesSudoOrSu s).
Proof.
  intros Hw. split.
  - intros [pre [before [kw [after [post [Hs [Hb [Hk Ha]]]]]]]].
    assert (Hkw : exists t, kw = String "s" t)
      by (destruct Hk as [-> | ->]; eauto).
    destruct Hkw as [t Hkw].
    assert (Hle : String.length ws <= String.length (pre ++ before)).
    { apply (@after_leading ws s (pre ++ before) "s" (t ++ after ++ post) Hw);
        [|reflexivity].
      rewrite Hs, Hkw. now rewrite !append_assoc. }
    assert (Hs' : ws ++ s = (pre ++ before) ++ kw ++ after ++ post).
    { rewrite Hs. now rewrite !append_assoc. }
    destruct (app_eq_split Hs' Hle) as [m [Hm ->]].
    destruct Hb as [Hb|[-> ->]].
    + destruct (Nat.le_gt_cases (String.length ws) (String.length pre)) as [Hp|Hp].
      * symmetry in Hm. destruct (app_eq_split Hm Hp) as [y [-> ->]].
        exists y, before, kw, after, post. repeat split; auto.
        now rewrite !append_assoc.
      * destruct (app_eq_split Hm (Nat.lt_le_incl _ _ Hp)) as [x [-> ->]].
        destruct (someIn_allIn Hb) as [Hall _]. rewrite allIn_append in Hall.
        apply andb_true_iff in Hall. destruct Hall as [_ Hall].
        exists "", m, kw, after, post. repeat split; auto.
        destruct m; [now right | now left].
    + simpl in Hm. destruct ws; [|discriminate]. destruct m; [|discriminate].
      exists "", "", kw, after, post. repeat split; auto.
  - intros [pre [before [kw [after [post [Hs [Hb [Hk Ha]]]]]]]].
    destruct Hb as [Hb|[-> ->]].
    + exists (ws ++ pre), before, kw, after, post. repeat split; auto.
      rewrite Hs. now rewrite !append_assoc.
    + destruct ws as [|c w].
      * exists "", "", kw, after, post. repeat split; auto.
      * exists "", (String c w), kw, after, post. repeat split; auto.
        rewrite Hs. reflexivity.
Qed.

Lemma analyzeSudoAndSuCommand_None (s : string) (source : Source) (line : Line) :
  analyzeSudoAndSuCommand GenerateErrorLocation s source line = None
  <-> ~ invokesSudoOrSu s.
Proof.
  rewrite <- sudo_no_match.
  destruct (analyzeSudoAndSuCommand_cases GenerateErrorLocation s source line)
    as [[E1 E2]|[E1 [r [E2 _]]]]; rewrite E2; split; congruence.
Qed.

(** X15.  Whitespace in front of a sub-command, which the split on [&&]
    leaves there, changes nothing for the rules: the chmod rule extracts
    the same argument, the chown rule selects the same group, and the
    sudo/su rule emits its finding for the one exactly when it does for
    the other. *)
Theorem leading_whitespace_ignored (ws s : string) (source : Source)
  (line : Line) :
  allIn isSpace ws = true ->
  extractedPermission (ws ++ s) = extractedPermission s
  /\ selectedGroup (ws ++ s) = selectedGroup s
  /\ (analyzeSudoAndSuCommand GenerateErrorLocation (ws ++ s) source line = None
      <-> analyzeSudoAndSuCommand GenerateErrorLocation s source line = None).
Proof.
  intros Hw. split; [|split].
  - rewrite !extractedPermission_firstChmodArg. now apply firstChmodArg_leading.
  - rewrite !selectedGroup_firstGroup. now apply firstGroup_leading.
  - rewrite !analyzeSudoAndSuCommand_None.
    now rewrite (invokesSudoOrSu_leading s Hw).
Qed.

Lemma extractedPermission_leading (lead ws1 d ws2 post : string) :
  allIn isSpace lead = true -> someIn isSpace ws1 = true ->
  someIn isDigit d = true -> someIn isSpace ws2 = true ->
  extractedPermission (lead ++ "chmod" ++ ws1 ++ d ++ ws2 ++ post) = Some d.
Proof.
  intros Hl H1 H2 H3.
  rewrite extractedPermission_firstChmodArg, firstChmodArg_leading by exact Hl.
  apply firstChmodArg_found. now apply chmodArgAt_intro.
Qed.

(** X16.  For a sub-command that starts, after whitespace, with [chmod],
    whitespace, three digits and whitespace: with 7 for the group digit,
    as every finding proposes, the rule emits nothing; with 6, the
    alternative the findings propose, the rule emits "Permission set"
    again, now proposing 7 only. *)
Theorem chmod_proposals_followed (lead ws1 ws2 post : string)
  (owner other : ascii) (source : Source) (line : Line) :
  allIn isSpace lead = true -> someIn isSpace ws1 = true ->
  isDigit owner = true -> isDigit other = true ->
  someIn isSpace ws2 = true ->
  analyzeChmodCommand GenerateErrorLocation
    (lead ++ "chmod" ++ ws1 ++ String owner (String "7" (String other ""))
       ++ ws2 ++ post) source line = None
  /\ exists r,
      analyzeChmodCommand GenerateErrorLocation
        (lead ++ "chmod" ++ ws1 ++ String owner (String "6" (String other ""))
           ++ ws2 ++ post) source line = Some r
      /\ Name r = "Permission set"
      /\ chmodProposal (String owner (String "6" (String other "")))
         = "Is it an executable file? Try updating permissions to "
           ++ String owner (String "7" (String other "")).
Proof.
  intros Hl H1 Ho Ht H3.
  assert (D : forall g, isDigit g = true ->
                        someIn isDigit (String owner (String g (String other "")))
                        = true).
  { intros g Hg. simpl. now rewrite Ho, Hg, Ht. }
  split.
  - rewrite analyzeChmodCommand_cases.
    rewrite (extractedPermission_leading post Hl H1 (D "7"%char eq_refl) H3).
    reflexivity.
  - rewrite analyzeChmodCommand_cases.
    rewrite (extractedPermission_leading post Hl H1 (D "6"%char eq_refl) H3).
    eexists. split; [reflexivity|]. split; reflexivity.
Qed.

End LeadingWhitespace.

(** ** The added properties on sample values *)

Lemma Analyze_amp_join_witness :
  endsWith "&" "sudo chmod 777 /app " = false
  /\ Sample.analyze ("sudo chmod 777 /app " ++ "&&" ++ " chown 1001:1001 /app")
     = (Sample.analyze "sudo chmod 777 /app "
        ++ Sample.analyze " chown 1001:1001 /app")%list.
Proof.
  assert (H : endsWith "&" "sudo chmod 777 /app " = false) by reflexivity.
  split; [exact H|].
  exact (@Analyze_amp_join _ _ Sample.GenerateErrorLocation Classifier.IsCommand
           Background "sudo chmod 777 /app " " chown 1001:1001 /app"
           "Dockerfile" 7 H).
Defined.

Lemma Analyze_no_trigger_witness :
  Contains "apt-get update && apt-get install -y curl" "chmod" = false
  /\ Contains "apt-get update && apt-get install -y curl" ":" = false
  /\ Contains "apt-get update && apt-get install -y curl" "su" = false
  /\ Sample.analyze "apt-get update && apt-get install -y curl" = [].
Proof.
  assert (H1 : Contains "apt-get update && apt-get install -y curl" "chmod" = false)
    by reflexivity.
  assert (H2 : Contains "apt-get update && apt-get install -y curl" ":" = false)
    by reflexivity.
  assert (H3 : Contains "apt-get update && apt-get install -y curl" "su" = false)
    by reflexivity.
  split; [exact H1|]. split; [exact H2|]. split; [exact H3|].
  exact (@Analyze_no_trigger _ _ Sample.GenerateErrorLocation Classifier.IsCommand
           Background (mkNode "apt-get update && apt-get install -y curl")
           "Dockerfile" 7 H1 H2 H3).
Defined.

Lemma Analyze_finding_kinds_witness :
  In (syntaxError Sample.GenerateErrorLocation "Dockerfile" 7)
    (Sample.analyze "chown 0:0 /app && chmod 12 /app")
  /\ Status (syntaxError Sample.GenerateErrorLocation "Dockerfile" 7) = StatusFailed
  /\ In (Name (syntaxError Sample.GenerateErrorLocation "Dockerfile" 7),
         Severity (syntaxError Sample.GenerateErrorLocation "Dockerfile" 7))
       findingKinds.
Proof.
  assert (H : In (syntaxError Sample.GenerateErrorLocation "Dockerfile" 7)
                (Sample.analyze "chown 0:0 /app && chmod 12 /app")).
  { vm_compute. left. reflexivity. }
  split; [exact H|].
  exact (@Analyze_finding_kinds _ _ Sample.GenerateErrorLocation
           Classifier.IsCommand Background
           (mkNode "chown 0:0 /app && chmod 12 /app") "Dockerfile" 7 _ H).
Defined.

Lemma Analyze_descriptions_witness :
  In (syntaxError Sample.GenerateErrorLocation "Dockerfile" 7)
    (Sample.analyze "chown 0:0 /app && chmod 12 /app")
  /\ Contains
       (Description (syntaxError Sample.GenerateErrorLocation "Dockerfile" 7))
       (Sample.GenerateErrorLocation "Dockerfile" 7) = true
  /\ (Name (syntaxError Sample.GenerateErrorLocation "Dockerfile" 7)
      = "Syntax error"
      \/ exists command,
          In command (Split "chown 0:0 /app && chmod 12 /app" "&&")
          /\ Contains
               (Description (syntaxError Sample.GenerateErrorLocation "Dockerfile" 7))
               command = true).
Proof.
  assert (H : In (syntaxError Sample.GenerateErrorLocation "Dockerfile" 7)
                (Sample.analyze "chown 0:0 /app && chmod 12 /app")).
  { vm_compute. left. reflexivity. }
  split; [exact H|].
  exact (@Analyze_descriptions _ _ Sample.GenerateErrorLocation
           Classifier.IsCommand Background
           (mkNode "chown 0:0 /app && chmod 12 /app") "Dockerfile" 7 _ H).
Defined.

Lemma syntax_errors_alike_witness :
  analyzeChmodCommand Sample.GenerateErrorLocation "chmod 12 /app" "Dockerfile" 7
  = Some (syntaxError Sample.GenerateErrorLocation "Dockerfile" 7)
  /\ analyzeChmodCommand Sample.GenerateErrorLocation "chmod 0644 /srv" "Dockerfile" 7
     = Some (syntaxError Sample.GenerateErrorLocation "Dockerfile" 7)
  /\ Name (syntaxError Sample.GenerateErrorLocation "Dockerfile" 7) = "Syntax error"
  /\ syntaxError Sample.GenerateErrorLocation "Dockerfile" 7
     = syntaxError Sample.GenerateErrorLocation "Dockerfile" 7.
Proof.
  assert (H1 : analyzeChmodCommand Sample.GenerateErrorLocation "chmod 12 /app"
                 "Dockerfile" 7
               = Some (syntaxError Sample.GenerateErrorLocation "Dockerfile" 7)).
  { vm_compute. reflexivity. }
  assert (H2 : analyzeChmodCommand Sample.GenerateErrorLocation "chmod 0644 /srv"
                 "Dockerfile" 7
               = Some (syntaxError Sample.GenerateErrorLocation "Dockerfile" 7)).
  { vm_compute. reflexivity. }
  split; [exact H1|]. split; [exact H2|]. split; [reflexivity|].
  exact (@syntax_errors_alike _ _ Sample.GenerateErrorLocation
           "chmod 12 /app" "chmod 0644 /srv" "Dockerfile" 7 _ _ H1 H2
           eq_refl eq_refl).
Defined.

Lemma chown_before_colon_ignored_witness :
  Contains "chown -R 1001" ":" = false
  /\ selectedGroup ("chown -R 1001" ++ ":staff /srv") = selectedGroup ":staff /srv"
  /\ (analyzeChownCommand Sample.GenerateErrorLocation
        ("chown -R 1001" ++ ":staff /srv") "Dockerfile" 7 = None
      <-> analyzeChownCommand Sample.GenerateErrorLocation
            ":staff /srv" "Dockerfile" 7 = None).
Proof.
  assert (H : Contains "chown -R 1001" ":" = false) by reflexivity.
  split; [exact H|].
  exact (@chown_before_colon_ignored _ _ Sample.GenerateErrorLocation
           "chown -R 1001" ":staff /srv" "Dockerfile" 7 H).
Defined.

Lemma chown_group_extent_witness :
  Contains "chown app" ":" = false
  /\ allIn isSigil "" = true /\ someIn isWord "root" = true
  /\ span isWord "-users /srv" = ""
  /\ selectedGroup ("chown app" ++ ":" ++ "" ++ "root" ++ "-users /srv")
     = Some ("" ++ "root").
Proof.
  assert (H1 : Contains "chown app" ":" = false) by reflexivity.
  assert (H2 : allIn isSigil "" = true) by reflexivity.
  assert (H3 : someIn isWord "root" = true) by reflexivity.
  assert (H4 : span isWord "-users /srv" = "") by reflexivity.
  split; [exact H1|]. split; [exact H2|]. split; [exact H3|]. split; [exact H4|].
  exact (@chown_group_extent "chown app" "" "root" "-users /srv" H1 H2 H3 H4).
Defined.

Lemma chown_variable_group_witness :
  selectedGroup "chown -R $ZOOKEEPER_USER:$HADOOP_GROUP $ZOOKEEPER_LOG_DIR"
  = Some "$HADOOP_GROUP"
  /\ HasPrefix "$HADOOP_GROUP" "$" = true
  /\ exists r,
      analyzeChownCommand Sample.GenerateErrorLocation
        "chown -R $ZOOKEEPER_USER:$HADOOP_GROUP $ZOOKEEPER_LOG_DIR" "Dockerfile" 7
      = Some r
      /\ Name r = "Owner set" /\ Severity r = SeverityMedium.
Proof.
  assert (H1 : selectedGroup
                 "chown -R $ZOOKEEPER_USER:$HADOOP_GROUP $ZOOKEEPER_LOG_DIR"
               = Some "$HADOOP_GROUP").
  { vm_compute. reflexivity. }
  assert (H2 : HasPrefix "$HADOOP_GROUP" "$" = true) by reflexivity.
  split; [exact H1|]. split; [exact H2|].
  exact (@chown_variable_group _ _ Sample.GenerateErrorLocation
           "chown -R $ZOOKEEPER_USER:$HADOOP_GROUP $ZOOKEEPER_LOG_DIR"
           "$HADOOP_GROUP" "Dockerfile" 7 H1 H2).
Defined.

Lemma chown_group_alphabet_witness :
  selectedGroup "chown -h 501:20 './AirRun Updates'" = Some "20"
  /\ "20" <> ""
  /\ allIn (fun c => isSigil c || isWord c) "20" = true
  /\ Contains "chown -h 501:20 './AirRun Updates'" (":" ++ "20") = true.
Proof.
  assert (H : selectedGroup "chown -h 501:20 './AirRun Updates'" = Some "20").
  { vm_compute. reflexivity. }
  split; [exact H|].
  exact (@chown_group_alphabet "chown -h 501:20 './AirRun Updates'" "20" H).
Defined.

Lemma chmod_argument_scan_witness :
  extractedPermission "RUN chmod  0755 /entrypoint.sh" = Some "0755"
  /\ someIn isDigit "0755" = true
  /\ exists pre ws1 ws2 post,
      "RUN chmod  0755 /entrypoint.sh" = pre ++ "chmod" ++ ws1 ++ "0755" ++ ws2 ++ post
      /\ someIn isSpace ws1 = true /\ someIn isSpace ws2 = true.
Proof.
  assert (H : extractedPermission "RUN chmod  0755 /entrypoint.sh" = Some "0755").
  { vm_compute. reflexivity. }
  split; [exact H|].
  exact (proj2 (chmod_argument_scan "RUN chmod  0755 /entrypoint.sh") "0755" H).
Defined.

Lemma chmod_no_digit_witness :
  allIn (fun c => negb (isDigit c)) "chmod -R g+rwX /opt/app" = true
  /\ analyzeChmodCommand Sample.GenerateErrorLocation "chmod -R g+rwX /opt/app"
       "Dockerfile" 7 = None.
Proof.
  assert (H : allIn (fun c => negb (isDigit c)) "chmod -R g+rwX /opt/app" = true)
    by reflexivity.
  split; [exact H|].
  exact (@chmod_no_digit _ _ Sample.GenerateErrorLocation
           "chmod -R g+rwX /opt/app" "Dockerfile" 7 H).
Defined.

Lemma chmod_rule_outcomes_witness :
  analyzeChmodCommand Sample.GenerateErrorLocation "chmod 0644 /srv" "Dockerfile" 7
  = Some (syntaxError Sample.GenerateErrorLocation "Dockerfile" 7)
  /\ (Name (syntaxError Sample.GenerateErrorLocation "Dockerfile" 7) = "Syntax error"
      <-> exists permission,
           extractedPermission "chmod 0644 /srv" = Some permission
           /\ String.length permission <> 3).
Proof.
  assert (H : analyzeChmodCommand Sample.GenerateErrorLocation "chmod 0644 /srv"
                "Dockerfile" 7
              = Some (syntaxError Sample.GenerateErrorLocation "Dockerfile" 7)).
  { vm_compute. reflexivity. }
  split; [exact H|].
  exact (proj2 (chmod_rule_outcomes Sample.GenerateErrorLocation
                  "chmod 0644 /srv" "Dockerfile" 7) _ H).
Defined.

Lemma leading_whitespace_ignored_witness :
  allIn isSpace " " = true
  /\ extractedPermission (" " ++ "chmod 664 /app ") = extractedPermission "chmod 664 /app "
  /\ selectedGroup (" " ++ "chmod 664 /app ") = selectedGroup "chmod 664 /app "
  /\ (analyzeSudoAndSuCommand Sample.GenerateErrorLocation
        (" " ++ "chmod 664 /app ") "Dockerfile" 7 = None
      <-> analyzeSudoAndSuCommand Sample.GenerateErrorLocation
            "chmod 664 /app " "Dockerfile" 7 = None).
Proof.
  assert (H : allIn isSpace " " = true) by reflexivity.
  split; [exact H|].
  exact (@leading_whitespace_ignored _ _ Sample.GenerateErrorLocation
           " " "chmod 664 /app " "Dockerfile" 7 H).
Defined.

Lemma chmod_proposals_followed_witness :
  allIn isSpace " " = true /\ someIn isSpace " " = true
  /\ isDigit "6" = true /\ isDigit "4" = true /\ someIn isSpace " " = true
  /\ analyzeChmodCommand Sample.GenerateErrorLocation
       (" " ++ "chmod" ++ " " ++ "674" ++ " " ++ "/app") "Dockerfile" 7 = None
  /\ exists r,
      analyzeChmodCommand Sample.GenerateErrorLocation
        (" " ++ "chmod" ++ " " ++ "664" ++ " " ++ "/app") "Dockerfile" 7 = Some r
      /\ Name r = "Permission set"
      /\ chmodProposal "664"
         = "Is it an executable file? Try updating permissions to " ++ "674".
Proof.
  assert (H1 : allIn isSpace " " = true) by reflexivity.
  assert (H2 : someIn isSpace " " = true) by reflexivity.
  assert (H3 : isDigit "6" = true) by reflexivity.
  assert (H4 : isDigit "4" = true) by reflexivity.
  split; [exact H1|]. split; [exact H2|]. split; [exact H3|].
  split; [exact H4|]. split; [exact H2|].
  exact (@chmod_proposals_followed _ _ Sample.GenerateErrorLocation
           " " " " " " "/app" "6" "4" "Dockerfile" 7 H1 H2 H3 H4 H2).
Defined.

